(** * AgentOja landing-page backend: retry executor, notification dispatch
      and submission store

    A shallow embedding of
      - [src/shared/services/email.service.ts]   (class [EmailService]),
      - [src/shared/services/database.service.ts] (class [DatabaseService]),
      - [src/shared/utils/validation.ts],
      - [src/functions/contact-form/index.ts] and [src/functions/waitlist/index.ts],
      - [src/functions/admin/index.ts],
    followed by the properties the specification states about them and by
    further properties of the same code.

    Conventions of the embedding.
      - A JavaScript [number] is an exact rational ([Q]); [Math.round x] is
        [Qfloor (x + 1/2)] (ties go up, as in ECMAScript).  Under the
        constants of [EmailService] every bound proved below is an integer,
        so IEEE rounding of the intermediate products cannot cross it.
      - A thrown value is any [JsValue]; an [Error] instance is an object
        flagged [isError] whose [message] property holds the message.
      - [async] functions are sequential state transformers: an [await]
        sequences, a rejected promise is a thrown value. *)

From Stdlib Require Import ZArith QArith Qround Qminmax Qpower Lia Lqa String Ascii List Bool.
From stdpp Require Import base option list strings gmap sorting.

Local Open Scope Z_scope.
Local Open Scope string_scope.
Local Open Scope list_scope.

(** ** JavaScript values *)

#[warnings="-register-all"]
Inductive JsValue : Type :=
  | JUndefined
  | JNull
  | JBoolean (b : bool)
  | JNumber (n : Q)
  | JString (s : string)
  | JObject (isError : bool) (props : gmap string JsValue).

(** [typeof v === 'object' && v !== null] *)
Definition isNonNullObject (v : JsValue) : bool :=
  match v with JObject _ _ => true | _ => false end.

(** ['name' in v] for an object [v] *)
Definition hasProp (name : string) (v : JsValue) : bool :=
  match v with
  | JObject _ props => bool_decide (is_Some (props !! name))
  | _ => false
  end.

(** [v.name]; a missing property reads as [undefined] *)
Definition getProp (name : string) (v : JsValue) : JsValue :=
  match v with
  | JObject _ props => default JUndefined (props !! name)
  | _ => JUndefined
  end.

(** [n === k] for a value [n] and a numeric literal [k]
    (the comparison [Array.prototype.includes] makes on these literals). *)
Definition isNumber (k : Q) (v : JsValue) : bool :=
  match v with JNumber n => Qeq_bool n k | _ => false end.

(** [new Error(msg)] *)
Definition newError (msg : string) : JsValue :=
  JObject true {[ "message" := JString msg ]}.

(** [error instanceof Error] *)
Definition instanceofError (v : JsValue) : bool :=
  match v with JObject true _ => true | _ => false end.

(** [error.message] read where the code expects a string *)
Definition messageOf (v : JsValue) : string :=
  match getProp "message" v with JString s => s | _ => "undefined" end.

(** Truthiness, as tested by [!v] and [v && ...] *)
Definition truthy (v : JsValue) : bool :=
  match v with
  | JUndefined | JNull => false
  | JBoolean b => b
  | JNumber n => negb (Qeq_bool n 0)
  | JString s => negb (String.eqb s "")
  | JObject _ _ => true
  end.

(** [typeof v === 'string'] *)
Definition isString (v : JsValue) : bool :=
  match v with JString _ => true | _ => false end.

(** ** Strings

    A string is its sequence of code units; the embedding covers the
    one-byte range, which is all the e-mail pattern accepts. *)

Definition isWhitespace (c : ascii) : bool :=
  let n := nat_of_ascii c in
  ((9 <=? n) && (n <=? 13) || (n =? 32))%nat.

Fixpoint trimStart (s : string) : string :=
  match s with
  | String c rest => if isWhitespace c then trimStart rest else s
  | EmptyString => EmptyString
  end.

Fixpoint trimEnd (s : string) : string :=
  match s with
  | String c rest =>
      match trimEnd rest with
      | EmptyString => if isWhitespace c then EmptyString else String c EmptyString
      | rest' => String c rest'
      end
  | EmptyString => EmptyString
  end.

(** [s.trim()] *)
Definition trim (s : string) : string := trimEnd (trimStart s).

Definition toLowerAscii (c : ascii) : ascii :=
  let n := nat_of_ascii c in
  if ((65 <=? n) && (n <=? 90))%nat then ascii_of_nat (n + 32) else c.

(** [s.toLowerCase()] *)
Fixpoint toLowerCase (s : string) : string :=
  match s with
  | String c rest => String (toLowerAscii c) (toLowerCase rest)
  | EmptyString => EmptyString
  end.

(** [s.substring(0, maxLength)] *)
Definition substring0 (maxLength : nat) (s : string) : string :=
  String.substring 0 (Nat.min maxLength (String.length s)) s.

(** [s.includes(needle)] *)
Fixpoint includes (needle s : string) : bool :=
  String.prefix needle s ||
  match s with
  | String _ rest => includes needle rest
  | EmptyString => false
  end.

(** [errors.join(', ')] *)
Fixpoint join (sep : string) (parts : list string) : string :=
  match parts with
  | [] => ""
  | [p] => p
  | p :: rest => p ++ sep ++ join sep rest
  end.

(** ** validation.ts *)

Definition isLetter (c : ascii) : bool :=
  let n := nat_of_ascii c in
  ((65 <=? n) && (n <=? 90) || (97 <=? n) && (n <=? 122))%nat.

Definition isDigit (c : ascii) : bool :=
  let n := nat_of_ascii c in ((48 <=? n) && (n <=? 57))%nat.

(** the class [[a-zA-Z0-9._%+-]] *)
Definition isLocalChar (c : ascii) : bool :=
  isLetter c || isDigit c ||
  existsb (Ascii.eqb c) ["."; "_"; "%"; "+"; "-"]%char.

(** the class [[a-zA-Z0-9.-]] *)
Definition isDomainChar (c : ascii) : bool :=
  isLetter c || isDigit c || existsb (Ascii.eqb c) ["."; "-"]%char.

Definition allChars (p : ascii -> bool) (s : string) : bool :=
  forallb p (list_ascii_of_string s).

(** Splits at the first occurrence of [sep]. *)
Fixpoint splitFirst (sep : ascii) (s : string) : option (string * string) :=
  match s with
  | EmptyString => None
  | String c rest =>
      if Ascii.eqb c sep then Some (EmptyString, rest)
      else match splitFirst sep rest with
           | Some (l, r) => Some (String c l, r)
           | None => None
           end
  end.

(** Splits at the last occurrence of [sep]. *)
Fixpoint splitLast (sep : ascii) (s : string) : option (string * string) :=
  match s with
  | EmptyString => None
  | String c rest =>
      match splitLast sep rest with
      | Some (l, r) => Some (String c l, r)
      | None => if Ascii.eqb c sep then Some (EmptyString, rest) else None
      end
  end.

(** [/^[a-zA-Z0-9._%+-]+@[a-zA-Z0-9.-]+\.[a-zA-Z]{2,}$/.test(email)].
    Neither class contains [@], so the local part ends at the first [@];
    the last group has no dot, so it starts after the last dot. *)
Definition isValidEmail (email : string) : bool :=
  match splitFirst "@"%char email with
  | None => false
  | Some (loc, dom) =>
      negb (String.eqb loc "") && allChars isLocalChar loc &&
      match splitLast "."%char dom with
      | None => false
      | Some (host, tld) =>
          negb (String.eqb host "") && allChars isDomainChar host &&
          (2 <=? String.length tld)%nat && allChars isLetter tld
      end
  end.

Definition stringOf (v : JsValue) : string :=
  match v with JString s => s | _ => "" end.

(** [validateContactSubmission(data)]: [Some msg] when it throws
    [new ValidationError(msg)], [None] when it returns. *)
Definition validateContactSubmission (data : JsValue) : option string :=
  if negb (isNonNullObject data) then Some "Invalid request data"
  else
    let name := getProp "name" data in
    let email := getProp "email" data in
    let message := getProp "message" data in
    let errors :=
      (if negb (truthy name) || negb (isString name)
          || (String.length (trim (stringOf name)) =? 0)%nat
       then ["Name is required"] else []) ++
      (if truthy name && isString name && (100 <? String.length (stringOf name))%nat
       then ["Name must be less than 100 characters"] else []) ++
      (if negb (truthy email) || negb (isString email)
          || negb (isValidEmail (stringOf email))
       then ["Valid email address is required"] else []) ++
      (if negb (truthy message) || negb (isString message)
          || (String.length (trim (stringOf message)) =? 0)%nat
       then ["Message is required"] else []) ++
      (if truthy message && isString message
          && (2000 <? String.length (stringOf message))%nat
       then ["Message must be less than 2000 characters"] else []) in
    if (0 <? List.length errors)%nat then Some (join ", " errors) else None.

(** [sanitizeString(input, maxLength)] *)
Definition sanitizeString (input : string) (maxLength : nat) : string :=
  substring0 maxLength (trim input).

(** [validateWaitlistSubmission(data)], same convention. *)
Definition validateWaitlistSubmission (data : JsValue) : option string :=
  if negb (isNonNullObject data) then Some "Invalid request data"
  else
    let name := getProp "name" data in
    let email := getProp "email" data in
    let errors :=
      (if negb (truthy email) || negb (isString email)
          || negb (isValidEmail (stringOf email))
       then ["Valid email address is required"] else []) ++
      (if truthy name && isString name && (100 <? String.length (stringOf name))%nat
       then ["Name must be less than 100 characters"] else []) in
    if (0 <? List.length errors)%nat then Some (join ", " errors) else None.

(** ** models/types.ts *)

Inductive ContactStatus := StatusNew | StatusRead | StatusReplied.
Inductive WaitlistStatus := StatusActive | StatusNotified | StatusConverted.

#[global] Instance ContactStatus_eq_dec : EqDecision ContactStatus.
Proof. solve_decision. Defined.
#[global] Instance WaitlistStatus_eq_dec : EqDecision WaitlistStatus.
Proof. solve_decision. Defined.

Module ContactSubmission.
Record t := Build {
  id : string;
  name : string;
  email : string;
  message : string;
  status : ContactStatus;
  submittedAt : string;
  _partitionKey : string
}.
End ContactSubmission.

Module WaitlistSubmission.
Record t := Build {
  id : string;
  email : string;
  name : option string;
  status : WaitlistStatus;
  position : Z;
  submittedAt : string;
  _partitionKey : string
}.
End WaitlistSubmission.

(** [Omit<ContactSubmission, 'id' | '_partitionKey'>] *)
Module NewContact.
Record t := Build {
  name : string;
  email : string;
  message : string;
  status : ContactStatus;
  submittedAt : string
}.
End NewContact.

(** [Omit<WaitlistSubmission, 'id' | '_partitionKey' | 'position'>] *)
Module NewWaitlist.
Record t := Build {
  email : string;
  name : option string;
  status : WaitlistStatus;
  submittedAt : string
}.
End NewWaitlist.

(** The [data] member of [ContactResponse] and of [WaitlistResponse]. *)
Record ContactData := { cd_submissionId : string; cd_email : string }.
Record WaitlistData :=
  { wd_submissionId : string; wd_email : string; wd_position : Z }.

(** [HttpResponseInit] whose [jsonBody] is a [ContactResponse] or a
    [WaitlistResponse]: [D] is the type of [data]. *)
Record HttpResponse (D : Type) := {
  status : Z;
  success : bool;
  message : string;
  error : option string;
  data : option D
}.
Arguments status {D}.
Arguments success {D}.
Arguments message {D}.
Arguments error {D}.
Arguments data {D}.

(** ** External collaborators

    The document store and the e-mail gateway are outside the repository.
    The store keeps each container as the list of its documents in storage
    order.  Each call to a collaborator is recorded in [calls], and its
    outcome is read from a script ([cosmosReplies], [emailReplies]): an
    exhausted script means the call succeeds. *)

Inductive EmailTemplate :=
  | ContactConfirmationContent (submission : ContactSubmission.t)
  | ContactNotificationContent (submission : ContactSubmission.t).

Record EmailMessage := {
  senderAddress : string;
  recipients : list string;
  subject : string;
  content : EmailTemplate
}.

Inductive Reply :=
  | Replied
  | Rejected (reason : JsValue)
  | NoResource.

Inductive Call :=
  | CallCreateContact (item : ContactSubmission.t)
  | CallCreateWaitlist (item : WaitlistSubmission.t)
  | CallQuery (container : string) (query : string)
  | CallBeginSend (msg : EmailMessage)
  | CallPollUntilDone.

Record ProcessEnv := {
  COSMOS_CONNECTION_STRING : option string;
  COMMUNICATION_SERVICES_CONNECTION_STRING : option string;
  SENDER_EMAIL : option string;
  ADMIN_EMAIL : option string;
  SHOW_DETAILED_ERRORS : option string
}.

Record Backend := {
  processEnv : ProcessEnv;
  ContactSubmissions : list ContactSubmission.t;
  WaitlistSubmissions : list WaitlistSubmission.t;
  cosmosReplies : list Reply;
  emailReplies : list Reply;
  uuids : nat -> string;
  uuidsDrawn : nat;
  now : string;
  calls : list Call
}.

Definition setContacts (l : list ContactSubmission.t) (b : Backend) : Backend :=
  {| processEnv := processEnv b; ContactSubmissions := l;
     WaitlistSubmissions := WaitlistSubmissions b;
     cosmosReplies := cosmosReplies b; emailReplies := emailReplies b;
     uuids := uuids b; uuidsDrawn := uuidsDrawn b; now := now b;
     calls := calls b |}.

Definition setWaitlist (l : list WaitlistSubmission.t) (b : Backend) : Backend :=
  {| processEnv := processEnv b; ContactSubmissions := ContactSubmissions b;
     WaitlistSubmissions := l;
     cosmosReplies := cosmosReplies b; emailReplies := emailReplies b;
     uuids := uuids b; uuidsDrawn := uuidsDrawn b; now := now b;
     calls := calls b |}.

Definition setCosmosReplies (l : list Reply) (b : Backend) : Backend :=
  {| processEnv := processEnv b; ContactSubmissions := ContactSubmissions b;
     WaitlistSubmissions := WaitlistSubmissions b;
     cosmosReplies := l; emailReplies := emailReplies b;
     uuids := uuids b; uuidsDrawn := uuidsDrawn b; now := now b;
     calls := calls b |}.

Definition setEmailReplies (l : list Reply) (b : Backend) : Backend :=
  {| processEnv := processEnv b; ContactSubmissions := ContactSubmissions b;
     WaitlistSubmissions := WaitlistSubmissions b;
     cosmosReplies := cosmosReplies b; emailReplies := l;
     uuids := uuids b; uuidsDrawn := uuidsDrawn b; now := now b;
     calls := calls b |}.

Definition setUuidsDrawn (n : nat) (b : Backend) : Backend :=
  {| processEnv := processEnv b; ContactSubmissions := ContactSubmissions b;
     WaitlistSubmissions := WaitlistSubmissions b;
     cosmosReplies := cosmosReplies b; emailReplies := emailReplies b;
     uuids := uuids b; uuidsDrawn := n; now := now b;
     calls := calls b |}.

Definition record (c : Call) (b : Backend) : Backend :=
  {| processEnv := processEnv b; ContactSubmissions := ContactSubmissions b;
     WaitlistSubmissions := WaitlistSubmissions b;
     cosmosReplies := cosmosReplies b; emailReplies := emailReplies b;
     uuids := uuids b; uuidsDrawn := uuidsDrawn b; now := now b;
     calls := calls b ++ [c] |}.

(** ** Outcomes and operations

    An [Outcome] is a thrown value ([inl]) or a returned one ([inr]).  An
    [Op S A] is an asynchronous operation over the state [S] of whatever it
    talks to. *)

Definition Outcome (A : Type) : Type := (JsValue + A)%type.
Definition Op (S A : Type) : Type := S -> Outcome A * S.

(** ** The runtime: [Math.random], [setTimeout], the console

    [trace] records, in order, each invocation of the operation handed to
    the retry helper, each sleep and each log line.  A log line keeps its
    level and the fixed part of its text. *)

Inductive LogLevel := LevelLog | LevelWarn | LevelError.

Inductive Event :=
  | EvInvoke (operationName : string) (attempt : nat)
  | EvSleep (ms : Z)
  | EvLog (level : LogLevel) (text : string).

Record Env (S : Type) := mkEnv {
  ext : S;
  randoms : nat -> Q;
  randomsDrawn : nat;
  trace : list Event
}.
Arguments mkEnv {S}.
Arguments ext {S}.
Arguments randoms {S}.
Arguments randomsDrawn {S}.
Arguments trace {S}.

Definition M (S A : Type) : Type := Env S -> Outcome A * Env S.

Definition ret {S A} (a : A) : M S A := fun e => (inr a, e).
Definition throw {S A} (v : JsValue) : M S A := fun e => (inl v, e).
Definition bind {S A B} (m : M S A) (k : A -> M S B) : M S B :=
  fun e => match m e with
           | (inr a, e') => k a e'
           | (inl v, e') => (inl v, e')
           end.
(** [try { m } catch (error) { handler error }] *)
Definition tryCatch {S A} (m : M S A) (handler : JsValue -> M S A) : M S A :=
  fun e => match m e with
           | (inr a, e') => (inr a, e')
           | (inl v, e') => handler v e'
           end.

Declare Scope js_scope.
Delimit Scope js_scope with js.
Notation "'let*' x ':=' m 'in' k" := (bind m (fun x => k))
  (at level 10, x name, m at level 100, k at level 200) : js_scope.
Notation "m1 >> m2" := (bind m1 (fun _ => m2))
  (at level 65, right associativity) : js_scope.
Local Open Scope js_scope.

Definition emit {S} (ev : Event) : M S unit :=
  fun e => (inr tt, mkEnv (ext e) (randoms e) (randomsDrawn e) (trace e ++ [ev])).

Definition consoleLog {S} (text : string) : M S unit := emit (EvLog LevelLog text).
Definition consoleWarn {S} (text : string) : M S unit := emit (EvLog LevelWarn text).
Definition consoleError {S} (text : string) : M S unit := emit (EvLog LevelError text).

(** [await this.sleep(ms)] *)
Definition sleep {S} (ms : Z) : M S unit := emit (EvSleep ms).

(** [Math.random()] *)
Definition mathRandom {S} : M S Q :=
  fun e => (inr (randoms e (randomsDrawn e)),
            mkEnv (ext e) (randoms e) (Datatypes.S (randomsDrawn e)) (trace e)).

(** Runs an operation on the collaborators' state. *)
Definition perform {S A} (op : Op S A) : M S A :=
  fun e => let '(r, s') := op (ext e) in
           (r, mkEnv s' (randoms e) (randomsDrawn e) (trace e)).

(** [await operation()] inside the retry helper *)
Definition invoke {S A} (operation : Op S A) (operationName : string)
    (attempt : nat) : M S A :=
  emit (EvInvoke operationName attempt) >> perform operation.

Definition when {S} (c : bool) (m : M S unit) : M S unit :=
  if c then m else ret tt.

(** ** email.service.ts: class [EmailService] *)

Record EmailService := {
  this_senderAddress : string;
  this_adminEmail : string;
  MAX_RETRIES : nat;
  INITIAL_DELAY_MS : Q;
  MAX_DELAY_MS : Q;
  BACKOFF_MULTIPLIER : Q;
  JITTER_PERCENTAGE : Q
}.

(** [process.env.X || fallback] *)
Definition orDefault (v : option string) (fallback : string) : string :=
  match v with
  | Some s => if String.eqb s "" then fallback else s
  | None => fallback
  end.

(** [!process.env.X] *)
Definition unset (v : option string) : bool :=
  match v with
  | Some s => String.eqb s ""
  | None => true
  end.

(** The instance the constructor builds from the environment [pe], with the
    retry constants of the class. *)
Definition emailServiceOf (pe : ProcessEnv) : EmailService :=
  {| this_senderAddress := orDefault (SENDER_EMAIL pe) "noreply@agentoja.com";
     this_adminEmail := orDefault (ADMIN_EMAIL pe) "info@agentoja.com";
     MAX_RETRIES := 3;
     INITIAL_DELAY_MS := 1000;
     MAX_DELAY_MS := 30000;
     BACKOFF_MULTIPLIER := 2;
     JITTER_PERCENTAGE := 25 # 100 |}.

(** [new EmailService()] *)
Definition newEmailService : M Backend EmailService :=
  fun e =>
    let pe := processEnv (ext e) in
    if unset (COMMUNICATION_SERVICES_CONNECTION_STRING pe)
    then (inl (newError
      "COMMUNICATION_SERVICES_CONNECTION_STRING environment variable is not set"), e)
    else (inr (emailServiceOf pe), e).

(** [Math.round(x)] *)
Definition mathRound (x : Q) : Z := Qfloor (x + (1 # 2)).

(** Lines 93-101 of [retryWithBackoff]: the delay after the failed attempt
    number [attempt], [random] being the value of [Math.random()]. *)
Definition baseDelay (this : EmailService) (attempt : nat) : Q :=
  INITIAL_DELAY_MS this * (BACKOFF_MULTIPLIER this) ^ (Z.of_nat attempt).

Definition cappedDelay (this : EmailService) (attempt : nat) : Q :=
  Qmin (baseDelay this attempt) (MAX_DELAY_MS this).

Definition jitter (this : EmailService) (attempt : nat) (random : Q) : Q :=
  cappedDelay this attempt * JITTER_PERCENTAGE this * (random * 2 - 1).

Definition delayMs (this : EmailService) (attempt : nat) (random : Q) : Z :=
  mathRound (cappedDelay this attempt + jitter this attempt random).

(** [isNonRetryableError(error)] *)
Definition nonRetryableStatusCodes : list Q := [400; 401; 403; 404]%Q.

Definition isNonRetryableError (error : JsValue) : bool :=
  if isNonNullObject error && hasProp "statusCode" error
  then existsb (fun code => isNumber code (getProp "statusCode" error))
               nonRetryableStatusCodes
  else false.

(** The [for] loop of [retryWithBackoff]: [remaining] counts the iterations
    left, [MAX_RETRIES - attempt + 1]. *)
Fixpoint retryLoop {S T} (this : EmailService) (operation : Op S T)
    (operationName : string) (remaining attempt : nat) (lastError : JsValue)
    : M S T :=
  match remaining with
  | O => throw lastError
  | Datatypes.S remaining' =>
      tryCatch
        (let* result := invoke operation operationName attempt in
         when (1 <? attempt)%nat (consoleLog "succeeded on attempt") >>
         ret result)
        (fun error =>
           if isNonRetryableError error
           then consoleError "failed with non-retryable error" >> throw error
           else
             (if (attempt <? MAX_RETRIES this)%nat
              then
                let* random := mathRandom in
                let delay := delayMs this attempt random in
                consoleLog "failed. Retrying in" >>
                consoleError "Error details" >>
                sleep delay
              else consoleError "failed after all attempts") >>
             retryLoop this operation operationName remaining'
                       (Datatypes.S attempt) error)
  end.

Definition retryWithBackoff {S T} (this : EmailService) (operation : Op S T)
    (operationName : string) : M S T :=
  retryLoop this operation operationName (MAX_RETRIES this) 1%nat JUndefined.

(** The e-mail gateway: [this.client.beginSend] and [poller.pollUntilDone]. *)
Definition nextReply (script : list Reply) : Reply * list Reply :=
  match script with
  | [] => (Replied, [])
  | r :: rest => (r, rest)
  end.

Definition gatewayCall (c : Call) : Op Backend unit :=
  fun b =>
    let b1 := record c b in
    let '(r, rest) := nextReply (emailReplies b1) in
    let b2 := setEmailReplies rest b1 in
    match r with
    | Rejected reason => (inl reason, b2)
    | _ => (inr tt, b2)
    end.

Definition beginSend (msg : EmailMessage) : Op Backend unit :=
  gatewayCall (CallBeginSend msg).

Definition pollUntilDone : Op Backend unit := gatewayCall CallPollUntilDone.

(** [async () => { const poller = await this.client.beginSend(emailMessage);
    await poller.pollUntilDone(); }] *)
Definition sendOperation (emailMessage : EmailMessage) : Op Backend unit :=
  fun b =>
    match beginSend emailMessage b with
    | (inr _, b') => pollUntilDone b'
    | (inl reason, b') => (inl reason, b')
    end.

(** [error instanceof Error ? error.message : 'Unknown error'] *)
Definition causeText (error : JsValue) : string :=
  if instanceofError error then messageOf error else "Unknown error".

(** The [emailMessage] each of the two contact methods builds. *)
Definition contactConfirmationMessage (this : EmailService)
    (submission : ContactSubmission.t) : EmailMessage :=
  {| senderAddress := this_senderAddress this;
     recipients := [ContactSubmission.email submission];
     subject := "Thank You for Contacting AgentOja";
     content := ContactConfirmationContent submission |}.

Definition contactNotificationMessage (this : EmailService)
    (submission : ContactSubmission.t) : EmailMessage :=
  {| senderAddress := this_senderAddress this;
     recipients := [this_adminEmail this];
     subject := "New Contact Form Submission - " ++ ContactSubmission.name submission;
     content := ContactNotificationContent submission |}.

Definition sendContactConfirmationEmail (this : EmailService)
    (submission : ContactSubmission.t) : M Backend unit :=
  let emailMessage := contactConfirmationMessage this submission in
  tryCatch
    (retryWithBackoff this (sendOperation emailMessage)
       ("Contact confirmation email to " ++ ContactSubmission.email submission) >>
     consoleLog "Confirmation email sent to")
    (fun error =>
       consoleError "Failed to send contact confirmation email after all retries" >>
       throw (newError ("Failed to send confirmation email: " ++ causeText error))).

Definition sendContactNotificationEmail (this : EmailService)
    (submission : ContactSubmission.t) : M Backend unit :=
  let emailMessage := contactNotificationMessage this submission in
  tryCatch
    (retryWithBackoff this (sendOperation emailMessage)
       ("Contact notification email to " ++ this_adminEmail this) >>
     consoleLog "Contact notification sent to")
    (fun error =>
       consoleError "Contact notification failed after all retries. Logging for further investigation.").

(** The two waitlist methods declared inside the class (lines 12-17). *)
Definition sendWaitlistConfirmationEmail (this : EmailService)
    (submission : WaitlistSubmission.t) : M Backend unit :=
  throw (newError "Method not implemented.").

Definition sendWaitlistNotificationEmail (this : EmailService)
    (submission : WaitlistSubmission.t) : M Backend unit :=
  throw (newError "Method not implemented.").

(** ** database.service.ts: class [DatabaseService] *)

(** [new DatabaseService()]; the instance carries no data of its own. *)
Definition newDatabaseService : M Backend unit :=
  fun e =>
    if unset (COSMOS_CONNECTION_STRING (processEnv (ext e)))
    then (inl (newError "COSMOS_CONNECTION_STRING environment variable is not set"), e)
    else (inr tt, e).

(** *** The query interface of a container

    A query selects the documents its [WHERE] clause accepts and, with an
    [ORDER BY] clause, sorts them.  The service reads every result through
    [query(spec, { maxItemCount }).fetchAll()].  In the SDK [maxItemCount]
    is a feed option, the number of items one page of the enumeration may
    hold, and [fetchAll] fetches all the pages of the query and returns
    them as one response; the iterator below follows that contract. *)

Section Container.
Context {Item : Type}.

Record QuerySpec := {
  query : string;
  whereClause : Item -> bool;
  orderBy : option (Item -> Item -> bool)
}.

Record QueryIterator := {
  queryText : string;
  rows : list Item;
  maxItemCount : option nat
}.

Definition precedes (le : Item -> Item -> bool) : relation Item :=
  fun a b => le a b = true.

#[global] Instance precedes_dec le a b : Decision (precedes le a b).
Proof. unfold precedes. apply _. Defined.

Definition sortRows (order : option (Item -> Item -> bool))
    (l : list Item) : list Item :=
  match order with
  | Some le => merge_sort (precedes le) l
  | None => l
  end.

(** [container.items.query(querySpec, options)] *)
Definition itemsQuery (docs : list Item) (querySpec : QuerySpec)
    (options : option nat) : QueryIterator :=
  {| queryText := query querySpec;
     rows := sortRows (orderBy querySpec)
               (List.filter (whereClause querySpec) docs);
     maxItemCount := options |}.

(** [iterator.fetchNext()]: one page and the iterator after it. *)
Definition fetchNext (it : QueryIterator) : list Item * QueryIterator :=
  match maxItemCount it with
  | Some size =>
      (firstn size (rows it),
       {| queryText := queryText it; rows := skipn size (rows it);
          maxItemCount := maxItemCount it |})
  | None =>
      (rows it, {| queryText := queryText it; rows := []; maxItemCount := None |})
  end.

(** The loop of [fetchAll]: pages are fetched while rows remain.  [fuel]
    bounds the number of pages; one page per row is enough for every page
    size of at least 1. *)
Fixpoint drain (fuel : nat) (it : QueryIterator) : list Item :=
  match fuel with
  | O => []
  | Datatypes.S fuel' =>
      match rows it with
      | [] => []
      | _ => let '(page, it') := fetchNext it in page ++ drain fuel' it'
      end
  end.

Definition allPages (it : QueryIterator) : list Item :=
  drain (List.length (rows it)) it.
End Container.
Arguments QuerySpec : clear implicits.
Arguments QueryIterator : clear implicits.

(** A call to the store: recorded, then answered from the script. *)
Definition cosmosCall (c : Call) : Op Backend Reply :=
  fun b =>
    let b1 := record c b in
    let '(r, rest) := nextReply (cosmosReplies b1) in
    (inr r, setCosmosReplies rest b1).

(** [await iterator.fetchAll()], giving [resources] *)
Definition fetchAll {Item} (container : string) (it : QueryIterator Item)
    : Op Backend (list Item) :=
  fun b =>
    match cosmosCall (CallQuery container (queryText it)) b with
    | (inr (Rejected reason), b') => (inl reason, b')
    | (inr _, b') => (inr (allPages it), b')
    | (inl reason, b') => (inl reason, b')
    end.

(** [await container.items.create(submissionData)], giving [resource] *)
Definition itemsCreateContact (submissionData : ContactSubmission.t)
    : Op Backend (option ContactSubmission.t) :=
  fun b =>
    match cosmosCall (CallCreateContact submissionData) b with
    | (inr Replied, b') =>
        (inr (Some submissionData),
         setContacts (ContactSubmissions b' ++ [submissionData]) b')
    | (inr (Rejected reason), b') => (inl reason, b')
    | (inr NoResource, b') => (inr None, b')
    | (inl reason, b') => (inl reason, b')
    end.

Definition itemsCreateWaitlist (submissionData : WaitlistSubmission.t)
    : Op Backend (option WaitlistSubmission.t) :=
  fun b =>
    match cosmosCall (CallCreateWaitlist submissionData) b with
    | (inr Replied, b') =>
        (inr (Some submissionData),
         setWaitlist (WaitlistSubmissions b' ++ [submissionData]) b')
    | (inr (Rejected reason), b') => (inl reason, b')
    | (inr NoResource, b') => (inr None, b')
    | (inl reason, b') => (inl reason, b')
    end.

(** [randomUUID()] *)
Definition randomUUID : Op Backend string :=
  fun b => (inr (uuids b (uuidsDrawn b)), setUuidsDrawn (Datatypes.S (uuidsDrawn b)) b).

(** The [catch] blocks of the service: log, then rethrow. *)
Definition logAndRethrow {A} (text : string) (m : M Backend A) : M Backend A :=
  tryCatch m (fun error => consoleError text >> throw error).

Definition createContactSubmission (submission : NewContact.t)
    : M Backend ContactSubmission.t :=
  let* uuid := perform randomUUID in
  let id := ("contact-" ++ uuid)%string in
  let submissionData :=
    ContactSubmission.Build id (NewContact.name submission)
      (NewContact.email submission) (NewContact.message submission)
      (NewContact.status submission) (NewContact.submittedAt submission)
      (NewContact.email submission) in
  logAndRethrow "Error creating contact submission"
    (let* resource := perform (itemsCreateContact submissionData) in
     match resource with
     | None => throw (newError "Failed to create contact submission in database")
     | Some created => ret created
     end).

Definition contactsByStatus (status : option ContactStatus)
    : QuerySpec ContactSubmission.t :=
  let newestFirst a b :=
    String.leb (ContactSubmission.submittedAt b) (ContactSubmission.submittedAt a) in
  match status with
  | Some wanted =>
      {| query := "SELECT * FROM c WHERE c.status = @status ORDER BY c.submittedAt DESC";
         whereClause := fun c => bool_decide (ContactSubmission.status c = wanted);
         orderBy := Some newestFirst |}
  | None =>
      {| query := "SELECT * FROM c ORDER BY c.submittedAt DESC";
         whereClause := fun _ => true;
         orderBy := Some newestFirst |}
  end.

Definition getAllContactSubmissions (status : option ContactStatus)
    (limit : option nat) : M Backend (list ContactSubmission.t) :=
  let limit := default 100%nat limit in
  logAndRethrow "Error fetching contact submissions"
    (let querySpec := contactsByStatus status in
     perform (fun b =>
       fetchAll "ContactSubmissions"
         (itemsQuery (ContactSubmissions b) querySpec (Some limit)) b)).

Definition activeCount : QuerySpec WaitlistSubmission.t :=
  {| query := "SELECT VALUE COUNT(1) FROM c WHERE c.status = @status";
     whereClause := fun c => bool_decide (WaitlistSubmission.status c = StatusActive);
     orderBy := None |}.

(** [SELECT VALUE COUNT(1)] answers with the single row holding the count. *)
Definition countRows {Item} (it : QueryIterator Item) : QueryIterator Z :=
  {| queryText := queryText it;
     rows := [Z.of_nat (List.length (rows it))];
     maxItemCount := maxItemCount it |}.

Definition getWaitlistCount : M Backend Z :=
  logAndRethrow "Error getting waitlist count"
    (let* resources := perform (fun b =>
       fetchAll "WaitlistSubmissions"
         (countRows (itemsQuery (WaitlistSubmissions b) activeCount None)) b) in
     ret (match resources with
          | first :: _ => first
          | [] => 0
          end)).

Definition createWaitlistSubmission (submission : NewWaitlist.t)
    : M Backend WaitlistSubmission.t :=
  let* uuid := perform randomUUID in
  let id := ("waitlist-" ++ uuid)%string in
  let* count := getWaitlistCount in
  let position := count + 1 in
  let submissionData :=
    WaitlistSubmission.Build id (NewWaitlist.email submission)
      (NewWaitlist.name submission) (NewWaitlist.status submission) position
      (NewWaitlist.submittedAt submission) (NewWaitlist.email submission) in
  logAndRethrow "Error creating waitlist submission"
    (let* resource := perform (itemsCreateWaitlist submissionData) in
     match resource with
     | None => throw (newError "Failed to create waitlist submission in database")
     | Some created => ret created
     end).

Definition waitlistByEmail (email : string) : QuerySpec WaitlistSubmission.t :=
  {| query := "SELECT * FROM c WHERE c.email = @email";
     whereClause := fun c => String.eqb (WaitlistSubmission.email c) email;
     orderBy := None |}.

Definition getWaitlistSubmissionByEmail (email : string)
    : M Backend (option WaitlistSubmission.t) :=
  logAndRethrow "Error fetching waitlist submission by email"
    (let querySpec := waitlistByEmail email in
     let* resources := perform (fun b =>
       fetchAll "WaitlistSubmissions"
         (itemsQuery (WaitlistSubmissions b) querySpec (Some 1%nat)) b) in
     ret (match resources with
          | first :: _ => Some first
          | [] => None
          end)).

Definition waitlistByStatus (status : option WaitlistStatus)
    : QuerySpec WaitlistSubmission.t :=
  let lowestFirst a b :=
    (WaitlistSubmission.position a <=? WaitlistSubmission.position b)%Z in
  match status with
  | Some wanted =>
      {| query := "SELECT * FROM c WHERE c.status = @status ORDER BY c.position ASC";
         whereClause := fun c => bool_decide (WaitlistSubmission.status c = wanted);
         orderBy := Some lowestFirst |}
  | None =>
      {| query := "SELECT * FROM c ORDER BY c.position ASC";
         whereClause := fun _ => true;
         orderBy := Some lowestFirst |}
  end.

Definition getAllWaitlistSubmissions (status : option WaitlistStatus)
    (limit : option nat) : M Backend (list WaitlistSubmission.t) :=
  let limit := default 100%nat limit in
  logAndRethrow "Error fetching waitlist submissions"
    (let querySpec := waitlistByStatus status in
     perform (fun b =>
       fetchAll "WaitlistSubmissions"
         (itemsQuery (WaitlistSubmissions b) querySpec (Some limit)) b)).

(** ** The HTTP handlers *)

(** What [await request.json()] gives: the parsed body, or a thrown value. *)
Definition HttpRequest : Type := Outcome JsValue.

Definition requestJson (request : HttpRequest) : M Backend JsValue :=
  fun e => (request, e).

Definition contextLog (text : string) : M Backend unit := emit (EvLog LevelLog text).
Definition contextWarn (text : string) : M Backend unit := emit (EvLog LevelWarn text).
Definition contextError (text : string) : M Backend unit := emit (EvLog LevelError text).

(** [new Date().toISOString()] *)
Definition isoNow : M Backend string := perform (fun b => (inr (now b), b)).

(** [process.env.SHOW_DETAILED_ERRORS === 'true'] *)
Definition showDetailedErrors : M Backend bool :=
  perform (fun b =>
    (inr (bool_decide (SHOW_DETAILED_ERRORS (processEnv b) = Some "true")), b)).

(** [promise.then(onFulfilled).catch(onRejected)] on a promise nobody
    awaits: the task runs, its outcome goes to the two callbacks and is
    then dropped. *)
Definition fireAndForget {A} (task : M Backend A) (onFulfilled : M Backend unit)
    (onRejected : JsValue -> M Backend unit) : M Backend unit :=
  fun e =>
    let '(_, e') := tryCatch (task >> onFulfilled) onRejected e in
    (inr tt, e').

(** [error instanceof Error ? error.message : 'Unknown error occurred'] *)
Definition errorMessageOf (error : JsValue) : string :=
  if instanceofError error then messageOf error else "Unknown error occurred".

(** The outer [catch] of both handlers. *)
Definition handlerCatch {D} (logText genericMessage : string) (error : JsValue)
    : M Backend (HttpResponse D) :=
  let errorMessage := errorMessageOf error in
  contextError logText >>
  let* detailed := showDetailedErrors in
  if instanceofError error && includes "Resource Not Found" (messageOf error)
  then ret {| status := 503; success := false;
              message := "We could not process your request right now. Please try again.";
              error := Some (if detailed then errorMessage
                             else "Service temporarily unavailable");
              data := None |}
  else ret {| status := 500; success := false;
              message := genericMessage;
              error := Some (if detailed then errorMessage else "Internal server error");
              data := None |}.

(** Lines 56-69 of [contactForm]: the services are built and the
    submission is persisted. *)
Definition contactFormPersist (body : JsValue)
    : M Backend (EmailService * ContactSubmission.t) :=
  let* dbService := newDatabaseService in
  let* emailService := newEmailService in
  let* submittedAt := isoNow in
  let* submission := createContactSubmission
    (NewContact.Build
       (sanitizeString (stringOf (getProp "name" body)) 100)
       (trim (toLowerCase (stringOf (getProp "email" body))))
       (sanitizeString (stringOf (getProp "message" body)) 2000)
       StatusNew submittedAt) in
  contextLog "Contact submission saved to database" >>
  ret (emailService, submission).

Definition contactData (submission : ContactSubmission.t) : ContactData :=
  {| cd_submissionId := ContactSubmission.id submission;
     cd_email := ContactSubmission.email submission |}.

(** The response of lines 81-93. *)
Definition contactDegraded (submission : ContactSubmission.t)
    : HttpResponse ContactData :=
  {| status := 500; success := false;
     message := "Your message was saved, but we could not send the confirmation email. Please try again or contact us directly.";
     error := Some "Failed to send confirmation email";
     data := Some (contactData submission) |}.

(** The response of lines 109-120. *)
Definition contactSuccess (submission : ContactSubmission.t)
    : HttpResponse ContactData :=
  {| status := 200; success := true;
     message := "Thank you for contacting us! We will get back to you within 24-48 hours.";
     error := None;
     data := Some (contactData submission) |}.

(** Lines 71-120 of [contactForm]: the two notifications and the response. *)
Definition contactFormNotify (emailService : EmailService)
    (submission : ContactSubmission.t) : M Backend (HttpResponse ContactData) :=
  let* early :=
    tryCatch
      (sendContactConfirmationEmail emailService submission >>
       contextLog "Confirmation email sent successfully" >>
       ret None)
      (fun error =>
         contextError "Failed to send confirmation email after retries" >>
         ret (Some (contactDegraded submission))) in
  match early with
  | Some response => ret response
  | None =>
      fireAndForget
        (sendContactNotificationEmail emailService submission)
        (contextLog "Admin notification sent successfully")
        (fun error =>
           contextWarn "Failed to send admin notification (non-critical)") >>
      ret (contactSuccess submission)
  end.

Definition contactForm (request : HttpRequest) : M Backend (HttpResponse ContactData) :=
  contextLog "Contact form submission received" >>
  tryCatch
    (let* body := requestJson request in
     contextLog "Contact from" >>
     match validateContactSubmission body with
     | Some validationMessage =>
         contextWarn "Validation failed" >>
         ret {| status := 400; success := false; message := "Validation failed";
                error := Some validationMessage; data := None |}
     | None =>
         let* persisted := contactFormPersist body in
         contactFormNotify (fst persisted) (snd persisted)
     end)
    (handlerCatch "Error processing contact form:"
       "An error occurred while processing your message. Please try again later.").

(** [requestData.name ? sanitizeString(requestData.name, 100) : undefined];
    a truthy [name] that is no string has no [trim] method. *)
Definition waitlistName (name : JsValue) : M Backend (option string) :=
  if truthy name
  then match name with
       | JString s => ret (Some (sanitizeString s 100))
       | _ => throw (newError "input.trim is not a function")
       end
  else ret None.

Definition waitlistData (submission : WaitlistSubmission.t) : WaitlistData :=
  {| wd_submissionId := WaitlistSubmission.id submission;
     wd_email := WaitlistSubmission.email submission;
     wd_position := WaitlistSubmission.position submission |}.

(** The response of lines 67-78. *)
Definition waitlistAlready (existing : WaitlistSubmission.t)
    : HttpResponse WaitlistData :=
  {| status := 200; success := true;
     message := "You are already on our waitlist! We will notify you when we launch.";
     error := None;
     data := Some (waitlistData existing) |}.

(** The response of lines 101-114. *)
Definition waitlistDegraded (submission : WaitlistSubmission.t)
    : HttpResponse WaitlistData :=
  {| status := 500; success := false;
     message := "You have been added to the waitlist, but we could not send the confirmation email. Please try again or contact us directly.";
     error := Some "Failed to send confirmation email";
     data := Some (waitlistData submission) |}.

(** The response of lines 128-140. *)
Definition waitlistSuccess (submission : WaitlistSubmission.t)
    : HttpResponse WaitlistData :=
  {| status := 200; success := true;
     message := "Welcome to the waitlist! You will be notified when AgentOja launches.";
     error := None;
     data := Some (waitlistData submission) |}.

(** [requestData.email.toLowerCase().trim()] *)
Definition normalizedEmail (body : JsValue) : string :=
  trim (toLowerCase (stringOf (getProp "email" body))).

(** Lines 56-63 of [waitlist]: the services are built and the store is
    asked for a record with the e-mail of the request. *)
Definition waitlistLookup (body : JsValue)
    : M Backend (EmailService * option WaitlistSubmission.t) :=
  let* dbService := newDatabaseService in
  let* emailService := newEmailService in
  let* existingSubmission := getWaitlistSubmissionByEmail (normalizedEmail body) in
  ret (emailService, existingSubmission).

(** Lines 81-89 of [waitlist]: the new record is persisted. *)
Definition waitlistPersist (body : JsValue) : M Backend WaitlistSubmission.t :=
  let* name := waitlistName (getProp "name" body) in
  let* submittedAt := isoNow in
  let* submission := createWaitlistSubmission
    (NewWaitlist.Build (normalizedEmail body) name StatusActive submittedAt) in
  contextLog "Waitlist submission saved to database" >>
  ret submission.

(** Lines 91-140 of [waitlist]: the two notifications and the response. *)
Definition waitlistNotify (emailService : EmailService)
    (submission : WaitlistSubmission.t) : M Backend (HttpResponse WaitlistData) :=
  let* early :=
    tryCatch
      (sendWaitlistConfirmationEmail emailService submission >>
       contextLog "Waitlist confirmation email sent successfully" >>
       ret None)
      (fun error =>
         contextError "Failed to send waitlist confirmation email after retries" >>
         ret (Some (waitlistDegraded submission))) in
  match early with
  | Some response => ret response
  | None =>
      tryCatch
        (sendWaitlistNotificationEmail emailService submission >>
         contextLog "Waitlist admin notification sent successfully")
        (fun error =>
           contextWarn "Failed to send waitlist admin notification (non-critical)") >>
      ret (waitlistSuccess submission)
  end.

Definition waitlist (request : HttpRequest) : M Backend (HttpResponse WaitlistData) :=
  contextLog "Waitlist submission received" >>
  tryCatch
    (let* body := requestJson request in
     contextLog "Waitlist signup from" >>
     match validateWaitlistSubmission body with
     | Some validationMessage =>
         contextWarn "Validation failed" >>
         ret {| status := 400; success := false; message := "Validation failed";
                error := Some validationMessage; data := None |}
     | None =>
         let* found := waitlistLookup body in
         match snd found with
         | Some existing =>
             contextLog "Email already exists in waitlist" >>
             ret (waitlistAlready existing)
         | None =>
             let* submission := waitlistPersist body in
             waitlistNotify (fst found) submission
         end
     end)
    (handlerCatch "Error processing waitlist submission:"
       "An error occurred while processing your waitlist signup. Please try again later.").

(** ** database.service.ts: the point read *)

(** [isCosmosError(error)] *)
Definition isCosmosError (error : JsValue) : bool :=
  isNonNullObject error && hasProp "code" error &&
  match getProp "code" error with
  | JNumber _ => true
  | _ => false
  end.

(** The document [container.item(id, partitionKey)] designates. *)
Definition itemAt (id partitionKey : string) (docs : list ContactSubmission.t)
    : option ContactSubmission.t :=
  List.find (fun c => String.eqb (ContactSubmission.id c) id
                      && String.eqb (ContactSubmission._partitionKey c) partitionKey)
            docs.

(** [await container.item(id, partitionKey).read()], giving [resource]; the
    call is logged as a query of the container for that item. *)
Definition itemRead (id partitionKey : string)
    : Op Backend (option ContactSubmission.t) :=
  fun b =>
    match cosmosCall (CallQuery "ContactSubmissions"
                        ("item(" ++ id ++ ", " ++ partitionKey ++ ").read()")%string) b with
    | (inr Replied, b') => (inr (itemAt id partitionKey (ContactSubmissions b')), b')
    | (inr (Rejected reason), b') => (inl reason, b')
    | (inr NoResource, b') => (inr None, b')
    | (inl reason, b') => (inl reason, b')
    end.

Definition getContactSubmission (id email : string)
    : M Backend (option ContactSubmission.t) :=
  tryCatch
    (let* resource := perform (itemRead id email) in
     ret resource)
    (fun error =>
       if isCosmosError error && isNumber 404 (getProp "code" error)
       then ret None
       else throw error).

(** ** functions/admin/index.ts *)










(** ** Observations on traces and call logs *)

Definition isInvoke (ev : Event) : bool :=
  match ev with EvInvoke _ _ => true | _ => false end.

Definition isSleep (ev : Event) : bool :=
  match ev with EvSleep _ => true | _ => false end.

(** How many times the operation was invoked, and the waits, in a trace. *)
Definition invocations (t : list Event) : nat := List.length (List.filter isInvoke t).
Definition waits (t : list Event) : nat := List.length (List.filter isSleep t).

(** The invocations and sleeps of a trace, in order. *)
Definition schedule (t : list Event) : list Event :=
  List.filter (fun ev => isInvoke ev || isSleep ev) t.

Definition isSend (c : Call) : bool :=
  match c with CallBeginSend _ | CallPollUntilDone => true | _ => false end.

(** No call of the list goes to the e-mail gateway. *)
Definition noSend (new : list Call) : bool :=
  forallb (fun c => negb (isSend c)) new.

(** [b'] differs from [b] only by calls to the e-mail gateway. *)
Definition mailOnly (b b' : Backend) : Prop :=
  processEnv b' = processEnv b /\
  ContactSubmissions b' = ContactSubmissions b /\
  WaitlistSubmissions b' = WaitlistSubmissions b /\
  cosmosReplies b' = cosmosReplies b /\
  uuidsDrawn b' = uuidsDrawn b /\
  exists sends, calls b' = calls b ++ sends /\ forallb isSend sends = true.

(** The store answers its next [n] calls: the script has run out by then or
    replies [Replied]. *)
Definition isReplied (r : Reply) : bool :=
  match r with Replied => true | _ => false end.

Definition answers (n : nat) (script : list Reply) : bool :=
  forallb isReplied (firstn n script).

(** The waitlist records with status ['active']. *)
Definition activeRecords (l : list WaitlistSubmission.t)
    : list WaitlistSubmission.t :=
  List.filter (whereClause activeCount) l.

(** The state an operation that keeps failing leaves after [n] invocations,
    and the outcome of invocation number [n + 1]. *)
Definition afterInvocations {S T} (operation : Op S T) (n : nat) (s : S) : S :=
  Nat.iter n (fun s => snd (operation s)) s.

Definition outcomeOfInvocation {S T} (operation : Op S T) (n : nat) (s : S)
    : Outcome T :=
  fst (operation (afterInvocations operation n s)).

(** The schedule of a run in which attempts [attempt .. MAX_RETRIES] all fail
    with a retryable error: every attempt but the last is followed by the
    sleep of its backoff delay. *)
Definition exhaustedSchedule (this : EmailService) (operationName : string)
    (random : nat -> Q) (drawn attempt : nat) : list Event :=
  flat_map (fun k =>
              [EvInvoke operationName (attempt + k);
               EvSleep (delayMs this (attempt + k) (random (drawn + k)%nat))])
           (seq 0 (MAX_RETRIES this - attempt))
  ++ [EvInvoke operationName (MAX_RETRIES this)].

(** The environment with log lines appended. *)
Definition logged {S} (lines : list Event) (e : Env S) : Env S :=
  mkEnv (ext e) (randoms e) (randomsDrawn e) (trace e ++ lines).

(** The state of a handler once the body is parsed: its first two lines
    are logged. *)
Definition contactFormEntered (e : Env Backend) : Env Backend :=
  logged [EvLog LevelLog "Contact form submission received";
          EvLog LevelLog "Contact from"] e.

Definition waitlistEntered (e : Env Backend) : Env Backend :=
  logged [EvLog LevelLog "Waitlist submission received";
          EvLog LevelLog "Waitlist signup from"] e.

(** The order of each listing, and what a status filter accepts. *)
Definition newestFirst : relation ContactSubmission.t :=
  fun a b =>
    String.leb (ContactSubmission.submittedAt b) (ContactSubmission.submittedAt a) = true.

Definition lowestPositionFirst : relation WaitlistSubmission.t :=
  fun a b => WaitlistSubmission.position a <= WaitlistSubmission.position b.

Definition contactMatches (status : option ContactStatus)
    (c : ContactSubmission.t) : Prop :=
  match status with
  | Some wanted => ContactSubmission.status c = wanted
  | None => True
  end.

Definition waitlistMatches (status : option WaitlistStatus)
    (c : WaitlistSubmission.t) : Prop :=
  match status with
  | Some wanted => WaitlistSubmission.status c = wanted
  | None => True
  end.

(** *** Retry schedules, accepted input and the handlers' responses *)

(** An outcome that ends the retry loop whatever attempts remain: a
    returned value or a non-retryable error. *)
Definition decisive {T} (outcome : Outcome T) : bool :=
  match outcome with
  | inr _ => true
  | inl error => isNonRetryableError error
  end.

(** The schedule of a run whose attempts [attempt .. attempt + k - 1] are
    each followed by a sleep and whose attempt [attempt + k] is the last. *)
Definition retrySchedule (this : EmailService) (operationName : string)
    (random : nat -> Q) (drawn attempt k : nat) : list Event :=
  flat_map (fun j =>
              [EvInvoke operationName (attempt + j);
               EvSleep (delayMs this (attempt + j) (random (drawn + j)%nat))])
           (seq 0 k)
  ++ [EvInvoke operationName (attempt + k)].

(** The milliseconds slept in a trace. *)
Fixpoint totalSleep (t : list Event) : Z :=
  match t with
  | [] => 0
  | EvSleep ms :: rest => ms + totalSleep rest
  | _ :: rest => totalSleep rest
  end.

(** The characters other than [sep]. *)
Definition isNot (sep : ascii) (c : ascii) : bool := negb (Ascii.eqb c sep).

(** The characters an accepted address is made of. *)
Definition isEmailChar (c : ascii) : bool :=
  isLocalChar c || isDomainChar c || Ascii.eqb c "@".

(** An error whose [message] is a string whenever it is an [Error]: what
    [new Error(...)] and the error classes of the SDKs build. *)
Definition messageIsString (error : JsValue) : bool :=
  negb (instanceofError error) || isString (getProp "message" error).

(** A reply of the store that, if it is a rejection, carries such an error. *)
Definition replyIsPlain (r : Reply) : bool :=
  match r with
  | Rejected reason => messageIsString reason
  | _ => true
  end.

(** Every error the request or the store can raise has a string message. *)
Definition plainErrors (request : HttpRequest) (b : Backend) : Prop :=
  match request with
  | inl error => messageIsString error = true
  | inr _ => True
  end
  /\ forallb replyIsPlain (cosmosReplies b) = true.

(** The response of the outer [catch] of a handler for the thrown [error];
    [detailed] is [SHOW_DETAILED_ERRORS === 'true']. *)
Definition failureResponse {D} (genericMessage : string) (detailed : bool)
    (error : JsValue) : HttpResponse D :=
  if instanceofError error && includes "Resource Not Found" (messageOf error)
  then {| status := 503; success := false;
          message := "We could not process your request right now. Please try again.";
          error := Some (if detailed then errorMessageOf error
                         else "Service temporarily unavailable");
          data := None |}
  else {| status := 500; success := false;
          message := genericMessage;
          error := Some (if detailed then errorMessageOf error
                         else "Internal server error");
          data := None |}.

(** [process.env.SHOW_DETAILED_ERRORS === 'true'] in [b]. *)
Definition detailedErrors (b : Backend) : bool :=
  bool_decide (SHOW_DETAILED_ERRORS (processEnv b) = Some "true").

(** The response of a failed validation. *)
Definition validationResponse {D} (validationMessage : string) : HttpResponse D :=
  {| status := 400; success := false; message := "Validation failed";
     error := Some validationMessage; data := None |}.


Definition contactGenericMessage : string :=
  "An error occurred while processing your message. Please try again later.".
Definition waitlistGenericMessage : string :=
  "An error occurred while processing your waitlist signup. Please try again later.".






(** A query of the store that is answered: the reply is consumed and the
    call logged. *)
Definition queried (container text : string) (b : Backend) : Backend :=
  setCosmosReplies (skipn 1 (cosmosReplies b)) (record (CallQuery container text) b).


(** The document [createContactSubmission] hands to the store. *)
Definition contactDocument (submission : NewContact.t) (b : Backend)
    : ContactSubmission.t :=
  ContactSubmission.Build
    ("contact-" ++ uuids b (uuidsDrawn b))%string
    (NewContact.name submission) (NewContact.email submission)
    (NewContact.message submission) (NewContact.status submission)
    (NewContact.submittedAt submission) (NewContact.email submission).

(** The status codes the two public handlers answer with. *)
Definition knownStatus (status : Z) : Prop :=
  status = 200 \/ status = 400 \/ status = 500 \/ status = 503.

(** ** Sample worlds *)

Definition sampleProcessEnv : ProcessEnv :=
  {| COSMOS_CONNECTION_STRING := Some "AccountEndpoint=https://db.example/";
     COMMUNICATION_SERVICES_CONNECTION_STRING := Some "endpoint=https://mail.example/";
     SENDER_EMAIL := None;
     ADMIN_EMAIL := None;
     SHOW_DETAILED_ERRORS := None |}.

Definition sampleBackend : Backend :=
  {| processEnv := sampleProcessEnv;
     ContactSubmissions := [];
     WaitlistSubmissions := [];
     cosmosReplies := [];
     emailReplies := [];
     uuids := fun n => String (ascii_of_nat (65 + n)) EmptyString;
     uuidsDrawn := 0;
     now := "2024-05-01T10:00:00.000Z";
     calls := [] |}.

Definition sampleEnv (b : Backend) : Env Backend :=
  mkEnv b (fun _ => 1 # 2) 0%nat [].

(** A failure carrying [statusCode], as the gateway's errors do. *)
Definition restError (statusCode : Z) (msg : string) : JsValue :=
  JObject true {[ "message" := JString msg;
                  "statusCode" := JNumber (inject_Z statusCode) ]}.

Definition contactBody : JsValue :=
  JObject false {[ "name" := JString "Jane Doe";
                   "email" := JString "jane@x.com";
                   "message" := JString "hi" ]}.

Definition waitlistBody : JsValue :=
  JObject false {[ "email" := JString "Sam@Example.org" ]}.

(** An operation over a counter that fails on every invocation. *)
Definition alwaysFails (error : JsValue) : Op nat unit :=
  fun n => (inl error, Datatypes.S n).

Definition waitlistRecord (n : nat) (email : string) (status : WaitlistStatus)
    : WaitlistSubmission.t :=
  WaitlistSubmission.Build
    ("waitlist-" ++ String (ascii_of_nat (97 + n)) EmptyString)%string
    email None status (Z.of_nat n) "2024-04-01T09:00:00.000Z" email.

(** Five active records and a converted one. *)
Definition sampleWaitlist : list WaitlistSubmission.t :=
  [waitlistRecord 1 "a@example.org" StatusActive;
   waitlistRecord 2 "b@example.org" StatusActive;
   waitlistRecord 3 "c@example.org" StatusConverted;
   waitlistRecord 4 "d@example.org" StatusActive;
   waitlistRecord 5 "e@example.org" StatusActive;
   waitlistRecord 6 "f@example.org" StatusActive].


Definition contactRecord (n : nat) (submittedAt : string) (status : ContactStatus)
    : ContactSubmission.t :=
  ContactSubmission.Build
    ("contact-" ++ String (ascii_of_nat (97 + n)) EmptyString)%string
    "Jane Doe" "jane@x.com" "hi" status submittedAt "jane@x.com".

Definition sampleContacts : list ContactSubmission.t :=
  [contactRecord 1 "2024-04-02T09:00:00.000Z" StatusNew;
   contactRecord 2 "2024-04-03T09:00:00.000Z" StatusRead;
   contactRecord 3 "2024-04-01T09:00:00.000Z" StatusNew].

(** The record [contactForm] persists for [contactBody] in [sampleBackend]. *)
Definition janeRecord : ContactSubmission.t :=
  ContactSubmission.Build "contact-A" "Jane Doe" "jane@x.com" "hi" StatusNew
    "2024-05-01T10:00:00.000Z" "jane@x.com".

(** The record [waitlist] persists for [waitlistBody] in [sampleBackend]. *)
Definition samRecord : WaitlistSubmission.t :=
  WaitlistSubmission.Build "waitlist-A" "sam@example.org" None StatusActive 1
    "2024-05-01T10:00:00.000Z" "sam@example.org".


(** The confirmation is accepted; every attempt of the notification is
    rejected with a retryable error. *)
Definition notificationFails : Backend :=
  setEmailReplies
    [Replied; Replied;
     Rejected (restError 503 "unavailable"); Rejected (restError 503 "unavailable");
     Rejected (restError 503 "unavailable")] sampleBackend.

(** An operation over a counter that fails once with a retryable error and
    succeeds from then on. *)
Definition failsOnce : Op nat string :=
  fun n => if (n =? 0)%nat
           then (inl (restError 503 "unavailable"), Datatypes.S n)
           else (inr "sent", Datatypes.S n).

Definition counterEnv : Env nat := mkEnv 0%nat (fun _ => 1 # 2) 0%nat [].


(** The store rejects the next call as unavailable. *)
Definition storeRejects : Backend :=
  setCosmosReplies [Rejected (restError 503 "Resource Not Found")] sampleBackend.

(** The store answers the next call with [404]. *)
Definition notFound : JsValue :=
  JObject true {[ "message" := JString "Entity with the specified id does not exist";
                  "code" := JNumber 404 ]}.

Definition storeMisses : Backend :=
  setCosmosReplies [Rejected notFound] sampleBackend.





Definition janeSubmission : NewContact.t :=
  NewContact.Build "Jane Doe" "jane@x.com" "hi" StatusNew "2024-05-01T10:00:00.000Z".

Definition signup (email : string) : NewWaitlist.t :=
  NewWaitlist.Build email None StatusActive "2024-05-01T10:00:00.000Z".

(** * Properties *)

(** ** Validation *)

Lemma allChars_cons p c s : allChars p (String c s) = p c && allChars p s.
Proof. reflexivity. Qed.

Lemma allChars_app p s1 s2 :
  allChars p (s1 ++ s2)%string = allChars p s1 && allChars p s2.
Proof.
  induction s1 as [|c s1 IH]; [reflexivity|].
  change (String c s1 ++ s2)%string with (String c (s1 ++ s2)%string).
  rewrite !allChars_cons, IH, andb_assoc. reflexivity.
Qed.

Lemma allChars_impl (p q : ascii -> bool) s :
  (forall c, p c = true -> q c = true) -> allChars p s = true -> allChars q s = true.
Proof.
  intros Hpq. induction s as [|c s IH]; [reflexivity|].
  rewrite !allChars_cons, !andb_true_iff. intros [Hc Hs]. auto.
Qed.

Lemma splitFirst_spec sep s l r :
  splitFirst sep s = Some (l, r) <->
  s = (l ++ String sep r)%string /\ allChars (isNot sep) l = true.
Proof.
  revert l r. induction s as [|c s IH]; intros l r; cbn [splitFirst].
  - split; [discriminate|]. intros [H _]. destruct l; discriminate.
  - destruct (Ascii.eqb c sep) eqn:Hc.
    + apply Ascii.eqb_eq in Hc. subst c. split.
      * intros [= <- <-]. split; reflexivity.
      * intros [H Hl]. destruct l as [|c' l]; cbn in H.
        { injection H as ->. reflexivity. }
        injection H as <- _. rewrite allChars_cons in Hl. unfold isNot in Hl.
        rewrite Ascii.eqb_refl in Hl. discriminate.
    + split.
      * destruct (splitFirst sep s) as [[l' r']|] eqn:Hs; [|discriminate].
        intros [= <- <-]. destruct (proj1 (IH l' r') eq_refl) as [-> Hl'].
        split; [reflexivity|]. rewrite allChars_cons. unfold isNot at 1.
        rewrite Hc. exact Hl'.
      * intros [H Hl]. destruct l as [|c' l]; cbn in H.
        { injection H as -> _. rewrite Ascii.eqb_refl in Hc. discriminate. }
        injection H as <- ->. rewrite allChars_cons in Hl.
        apply andb_true_iff in Hl as [_ Hl].
        rewrite (proj2 (IH l r) (conj eq_refl Hl)). reflexivity.
Qed.

Lemma splitLast_none sep s :
  splitLast sep s = None <-> allChars (isNot sep) s = true.
Proof.
  induction s as [|c s IH]; cbn [splitLast]; [split; reflexivity|].
  rewrite allChars_cons. unfold isNot at 1.
  destruct (splitLast sep s) as [[l r]|].
  - split; [discriminate|]. intros H. apply andb_true_iff in H as [_ H].
    apply IH in H. discriminate.
  - destruct (Ascii.eqb c sep); cbn; [split; discriminate|].
    split; intros _; [apply IH|]; reflexivity.
Qed.

Lemma splitLast_spec sep s l r :
  splitLast sep s = Some (l, r) <->
  s = (l ++ String sep r)%string /\ allChars (isNot sep) r = true.
Proof.
  revert l r. induction s as [|c s IH]; intros l r; cbn [splitLast].
  - split; [discriminate|]. intros [H _]. destruct l; discriminate.
  - destruct (splitLast sep s) as [[l' r']|] eqn:Hs.
    + destruct (proj1 (IH l' r') eq_refl) as [Es Hr']. split.
      * intros [= <- <-]. split; [rewrite Es; reflexivity|exact Hr'].
      * intros [H Hr]. destruct l as [|c' l]; cbn in H.
        { injection H as Hc Hr0. subst c r. rewrite Es in Hr.
          rewrite allChars_app, allChars_cons in Hr. unfold isNot at 2 in Hr.
          rewrite Ascii.eqb_refl, andb_false_r in Hr. discriminate. }
        injection H as Hc H. subst c'.
        pose proof (proj2 (IH l r) (conj H Hr)) as Hs2.
        injection Hs2 as Hl2 Hr2. subst l' r'. reflexivity.
    + pose proof (proj1 (splitLast_none sep s) Hs) as Hnone.
      destruct (Ascii.eqb c sep) eqn:Hc.
      * apply Ascii.eqb_eq in Hc. subst c. split.
        { intros [= <- <-]. split; [reflexivity|exact Hnone]. }
        intros [H Hr]. destruct l as [|c' l]; cbn in H.
        { injection H as ->. reflexivity. }
        injection H as <- H. subst s.
        rewrite allChars_app, allChars_cons in Hnone. unfold isNot at 2 in Hnone.
        rewrite Ascii.eqb_refl, andb_false_r in Hnone. discriminate.
      * split; [discriminate|].
        intros [H Hr]. destruct l as [|c' l]; cbn in H.
        { injection H as -> _. rewrite Ascii.eqb_refl in Hc. discriminate. }
        injection H as <- H. subst s.
        rewrite allChars_app, allChars_cons in Hnone. unfold isNot at 2 in Hnone.
        rewrite Ascii.eqb_refl, andb_false_r in Hnone. discriminate.
Qed.

Ltac ascii_cases c :=
  destruct c as [[] [] [] [] [] [] [] []]; vm_compute; try reflexivity; try discriminate.

Lemma isLocalChar_not_at c : isLocalChar c = true -> isNot "@" c = true.
Proof. ascii_cases c. Qed.

Lemma isDomainChar_not_at c : isDomainChar c = true -> isNot "@" c = true.
Proof. ascii_cases c. Qed.

Lemma isLetter_not_dot c : isLetter c = true -> isNot "." c = true.
Proof. ascii_cases c. Qed.

Lemma isLetter_domain c : isLetter c = true -> isDomainChar c = true.
Proof. ascii_cases c. Qed.

Lemma eqb_empty_false s : negb (String.eqb s "") = true <-> s <> "".
Proof.
  rewrite negb_true_iff. split.
  - intros H ->. discriminate.
  - intros H. apply String.eqb_neq. exact H.
Qed.

Lemma isValidEmail_iff (email : string) :
  isValidEmail email = true <->
  exists loc host tld,
    email = (loc ++ String "@" (host ++ String "." tld))%string
    /\ loc <> "" /\ allChars isLocalChar loc = true
    /\ host <> "" /\ allChars isDomainChar host = true
    /\ (2 <= String.length tld)%nat /\ allChars isLetter tld = true.
Proof.
  unfold isValidEmail. split.
  - destruct (splitFirst "@" email) as [[loc dom]|] eqn:Hat; [|discriminate].
    apply splitFirst_spec in Hat as [-> _].
    destruct (splitLast "." dom) as [[host tld]|] eqn:Hdot;
      [|rewrite andb_false_r; discriminate].
    apply splitLast_spec in Hdot as [-> _].
    rewrite !andb_true_iff, !eqb_empty_false, Nat.leb_le.
    intros [[Hloc1 Hloc2] [[[Hhost1 Hhost2] Htld1] Htld2]].
    exists loc, host, tld. repeat split; assumption.
  - intros (loc & host & tld & -> & Hloc1 & Hloc2 & Hhost1 & Hhost2 & Htld1 & Htld2).
    rewrite (proj2 (splitFirst_spec "@" _ loc (host ++ String "." tld)%string)).
    2:{ split; [reflexivity|]. eapply allChars_impl; [|exact Hloc2].
        apply isLocalChar_not_at. }
    rewrite (proj2 (splitLast_spec "." _ host tld)).
    2:{ split; [reflexivity|]. eapply allChars_impl; [|exact Htld2].
        apply isLetter_not_dot. }
    rewrite !andb_true_iff, !eqb_empty_false, Nat.leb_le. repeat split; assumption.
Qed.

Lemma isEmailChar_not_whitespace c : isEmailChar c = true -> isWhitespace c = false.
Proof. ascii_cases c. Qed.

Lemma isLocalChar_email c : isLocalChar c = true -> isEmailChar c = true.
Proof. ascii_cases c. Qed.
Lemma isDomainChar_email c : isDomainChar c = true -> isEmailChar c = true.
Proof. ascii_cases c. Qed.
Lemma isLetter_email c : isLetter c = true -> isEmailChar c = true.
Proof. ascii_cases c. Qed.

Lemma isValidEmail_chars email :
  isValidEmail email = true -> allChars isEmailChar email = true.
Proof.
  intros H. apply isValidEmail_iff in H
    as (loc & host & tld & -> & _ & Hloc & _ & Hhost & _ & Htld).
  rewrite allChars_app, allChars_cons, allChars_app, allChars_cons.
  rewrite (allChars_impl _ _ _ isLocalChar_email Hloc).
  rewrite (allChars_impl _ _ _ isDomainChar_email Hhost).
  rewrite (allChars_impl _ _ _ isLetter_email Htld). reflexivity.
Qed.

Lemma trimStart_id s :
  allChars (fun c => negb (isWhitespace c)) s = true -> trimStart s = s.
Proof.
  destruct s as [|c s]; [reflexivity|].
  rewrite allChars_cons, andb_true_iff, negb_true_iff. intros [Hc _].
  cbn [trimStart]. rewrite Hc. reflexivity.
Qed.

Lemma trimEnd_id s :
  allChars (fun c => negb (isWhitespace c)) s = true -> trimEnd s = s.
Proof.
  induction s as [|c s IH]; [reflexivity|].
  rewrite allChars_cons, andb_true_iff, negb_true_iff. intros [Hc Hs].
  cbn [trimEnd]. rewrite (IH Hs). destruct s; [rewrite Hc|]; reflexivity.
Qed.

Lemma trim_id s :
  allChars (fun c => negb (isWhitespace c)) s = true -> trim s = s.
Proof. intros H. unfold trim. rewrite (trimStart_id _ H). apply trimEnd_id, H. Qed.

Lemma toLowerCase_app s1 s2 :
  toLowerCase (s1 ++ s2)%string = (toLowerCase s1 ++ toLowerCase s2)%string.
Proof.
  induction s1 as [|c s1 IH]; [reflexivity|].
  change (String c s1 ++ s2)%string with (String c (s1 ++ s2)%string).
  cbn [toLowerCase]. rewrite IH. reflexivity.
Qed.

Lemma toLowerCase_length s : String.length (toLowerCase s) = String.length s.
Proof. induction s as [|c s IH]; [reflexivity|]. cbn. rewrite IH. reflexivity. Qed.

Lemma toLowerCase_allChars (p : ascii -> bool) s :
  (forall c, p c = true -> p (toLowerAscii c) = true) ->
  allChars p s = true -> allChars p (toLowerCase s) = true.
Proof.
  intros Hp. induction s as [|c s IH]; [reflexivity|].
  cbn [toLowerCase]. rewrite !allChars_cons, !andb_true_iff. intros [Hc Hs]. auto.
Qed.

Lemma toLowerAscii_local c : isLocalChar c = true -> isLocalChar (toLowerAscii c) = true.
Proof. ascii_cases c. Qed.
Lemma toLowerAscii_domain c : isDomainChar c = true -> isDomainChar (toLowerAscii c) = true.
Proof. ascii_cases c. Qed.
Lemma toLowerAscii_letter c : isLetter c = true -> isLetter (toLowerAscii c) = true.
Proof. ascii_cases c. Qed.
Lemma toLowerAscii_idem c : toLowerAscii (toLowerAscii c) = toLowerAscii c.
Proof. ascii_cases c. Qed.

Lemma toLowerCase_idem s : toLowerCase (toLowerCase s) = toLowerCase s.
Proof.
  induction s as [|c s IH]; [reflexivity|].
  cbn [toLowerCase]. rewrite toLowerAscii_idem, IH. reflexivity.
Qed.

Lemma toLowerCase_nonempty s : s <> "" -> toLowerCase s <> "".
Proof. destruct s; [congruence|discriminate]. Qed.

Lemma isValidEmail_toLowerCase email :
  isValidEmail email = true -> isValidEmail (toLowerCase email) = true.
Proof.
  intros H. apply isValidEmail_iff in H
    as (loc & host & tld & -> & Hloc1 & Hloc2 & Hhost1 & Hhost2 & Htld1 & Htld2).
  apply isValidEmail_iff.
  exists (toLowerCase loc), (toLowerCase host), (toLowerCase tld).
  split.
  { rewrite toLowerCase_app. cbn [toLowerCase]. rewrite toLowerCase_app. reflexivity. }
  split; [apply toLowerCase_nonempty, Hloc1|].
  split; [apply toLowerCase_allChars; [apply toLowerAscii_local|exact Hloc2]|].
  split; [apply toLowerCase_nonempty, Hhost1|].
  split; [apply toLowerCase_allChars; [apply toLowerAscii_domain|exact Hhost2]|].
  split; [rewrite toLowerCase_length; exact Htld1|].
  apply toLowerCase_allChars; [apply toLowerAscii_letter|exact Htld2].
Qed.

Lemma trim_valid_email email : isValidEmail email = true -> trim email = email.
Proof.
  intros H. apply trim_id. eapply allChars_impl; [|apply isValidEmail_chars, H].
  intros c Hc. rewrite (isEmailChar_not_whitespace c Hc). reflexivity.
Qed.


Lemma trim_empty : trim "" = "".
Proof. reflexivity. Qed.






















(** X3.  [isValidEmail] accepts exactly the language of its pattern
    [^[a-zA-Z0-9._%+-]+@[a-zA-Z0-9.-]+\.[a-zA-Z]{2,}$]: a non-empty local
    part of letters, digits and [._%+-], an [@], a non-empty host of
    letters, digits, dots and hyphens, a dot, and at least two letters.  An
    accepted address therefore holds no white space, trimming leaves it
    unchanged, and its lower-case form is accepted too. *)
Theorem valid_email_shape (email : string) :
  (isValidEmail email = true <->
   exists loc host tld,
     email = (loc ++ String "@" (host ++ String "." tld))%string
     /\ loc <> "" /\ allChars isLocalChar loc = true
     /\ host <> "" /\ allChars isDomainChar host = true
     /\ (2 <= String.length tld)%nat /\ allChars isLetter tld = true)
  /\ (isValidEmail email = true ->
      allChars (fun c => negb (isWhitespace c)) email = true
      /\ trim email = email
      /\ isValidEmail (toLowerCase email) = true).
Proof.
  split; [apply isValidEmail_iff|]. intros H.
  split; [|split; [apply trim_valid_email, H|apply isValidEmail_toLowerCase, H]].
  eapply allChars_impl; [|apply isValidEmail_chars, H].
  intros c Hc. rewrite (isEmailChar_not_whitespace c Hc). reflexivity.
Qed.

Lemma valid_email_shape_witness :
  trim "jane@x.com" = "jane@x.com" /\ isValidEmail (toLowerCase "jane@x.com") = true.
Proof.
  destruct (valid_email_shape "jane@x.com") as [_ H].
  destruct H as (_ & Htrim & Hlower); [vm_compute; reflexivity|].
  split; [exact Htrim|exact Hlower].
Defined.


(** ** The backoff delay *)

Lemma mathRound_between (lo hi : Z) (x : Q) :
  (inject_Z lo <= x)%Q -> (x <= inject_Z hi)%Q -> lo <= mathRound x <= hi.
Proof.
  intros Hlo Hhi. unfold mathRound. split.
  - rewrite <- (Qfloor_Z lo). apply Qfloor_resp_le. lra.
  - assert (Hfl : Qfloor (inject_Z hi + (1 # 2)) = hi).
    { unfold Qfloor, Qplus, inject_Z; simpl.
      rewrite Z.mul_1_r.
      symmetry. apply (Z.div_unique_pos _ _ _ 1); lia. }
    apply Z.le_trans with (Qfloor (inject_Z hi + (1 # 2))); [| lia].
    apply Qfloor_resp_le. lra.
Qed.




(** ** The retry loop *)

#[local] Arguments delayMs : simpl never.
#[local] Arguments Nat.ltb : simpl never.

Section RetryLoop.
Context {S T : Type}.
Variable this : EmailService.
Variable operation : Op S T.
Variable operationName : string.

Lemma retryLoop_nonretryable remaining attempt lastError (e : Env S) error s' :
  operation (ext e) = (inl error, s') ->
  isNonRetryableError error = true ->
  retryLoop this operation operationName (Datatypes.S remaining) attempt lastError e
  = (inl error,
     mkEnv s' (randoms e) (randomsDrawn e)
       ((trace e ++ [EvInvoke operationName attempt])
          ++ [EvLog LevelError "failed with non-retryable error"])).
Proof.
  intros Hop Hclass.
  cbn [retryLoop]. unfold tryCatch, bind, invoke, emit, perform; cbn.
  rewrite Hop; cbn. rewrite Hclass. reflexivity.
Qed.

Lemma retryLoop_retryable remaining attempt lastError (e : Env S) error s' :
  operation (ext e) = (inl error, s') ->
  isNonRetryableError error = false ->
  retryLoop this operation operationName (Datatypes.S remaining) attempt lastError e
  = retryLoop this operation operationName remaining (Datatypes.S attempt) error
      (if (attempt <? MAX_RETRIES this)%nat
       then mkEnv s' (randoms e) (Datatypes.S (randomsDrawn e))
              (trace e ++ [EvInvoke operationName attempt;
                           EvLog LevelLog "failed. Retrying in";
                           EvLog LevelError "Error details";
                           EvSleep (delayMs this attempt (randoms e (randomsDrawn e)))])
       else mkEnv s' (randoms e) (randomsDrawn e)
              (trace e ++ [EvInvoke operationName attempt;
                           EvLog LevelError "failed after all attempts"])).
Proof.
  intros Hop Hclass.
  cbn [retryLoop]. unfold tryCatch at 1. unfold bind at 1.
  unfold invoke, bind at 1, emit, perform; cbn.
  rewrite Hop; cbn. rewrite Hclass.
  destruct (attempt <? MAX_RETRIES this)%nat; unfold bind, mathRandom, consoleLog, consoleError, sleep, emit; cbn;
    rewrite <- ?app_assoc; reflexivity.
Qed.

Lemma retryLoop_success remaining attempt lastError (e : Env S) result s' :
  operation (ext e) = (inr result, s') ->
  retryLoop this operation operationName (Datatypes.S remaining) attempt lastError e
  = (inr result,
     mkEnv s' (randoms e) (randomsDrawn e)
       (trace e ++ EvInvoke operationName attempt ::
          (if (1 <? attempt)%nat then [EvLog LevelLog "succeeded on attempt"] else []))).
Proof.
  intros Hop.
  cbn [retryLoop]. unfold tryCatch, bind, invoke, emit, perform, when; cbn.
  rewrite Hop; cbn.
  destruct (1 <? attempt)%nat; cbn; unfold consoleLog, emit, ret; cbn;
    rewrite <- ?app_assoc, ?app_nil_r; reflexivity.
Qed.
End RetryLoop.

Lemma schedule_app t1 t2 : schedule (t1 ++ t2) = schedule t1 ++ schedule t2.
Proof. unfold schedule. apply List.filter_app. Qed.

Lemma invocations_schedule t : invocations t = invocations (schedule t).
Proof.
  unfold invocations, schedule. induction t as [|ev t IH]; [reflexivity|].
  destruct ev; cbn; rewrite ?IH; reflexivity.
Qed.

Lemma waits_schedule t : waits t = waits (schedule t).
Proof.
  unfold waits, schedule. induction t as [|ev t IH]; [reflexivity|].
  destruct ev; cbn; rewrite ?IH; reflexivity.
Qed.

Lemma exhaustedSchedule_last this name random drawn :
  exhaustedSchedule this name random drawn (MAX_RETRIES this)
  = [EvInvoke name (MAX_RETRIES this)].
Proof. unfold exhaustedSchedule. rewrite Nat.sub_diag. reflexivity. Qed.

Lemma exhaustedSchedule_step this name random drawn attempt :
  (attempt < MAX_RETRIES this)%nat ->
  exhaustedSchedule this name random drawn attempt
  = EvInvoke name attempt :: EvSleep (delayMs this attempt (random drawn))
      :: exhaustedSchedule this name random (Datatypes.S drawn) (Datatypes.S attempt).
Proof.
  intros Hlt. unfold exhaustedSchedule.
  replace (MAX_RETRIES this - attempt)%nat
    with (Datatypes.S (MAX_RETRIES this - Datatypes.S attempt)) by lia.
  rewrite <- cons_seq, <- seq_shift. cbn [flat_map].
  rewrite !Nat.add_0_r. cbn [app]. do 2 f_equal.
  f_equal. rewrite flat_map_concat_map, List.map_map, <- flat_map_concat_map.
  apply flat_map_ext. intros k. rewrite !Nat.add_succ_r. reflexivity.
Qed.

Lemma exhaustedSchedule_counts this name random drawn attempt :
  (attempt <= MAX_RETRIES this)%nat ->
  invocations (exhaustedSchedule this name random drawn attempt)
    = Datatypes.S (MAX_RETRIES this - attempt)
  /\ waits (exhaustedSchedule this name random drawn attempt)
    = (MAX_RETRIES this - attempt)%nat.
Proof.
  intros Hle. unfold exhaustedSchedule, invocations, waits.
  set (f := fun k : nat => _).
  assert (Hgen : forall l : list nat,
    List.length (List.filter isInvoke
      (flat_map f l ++ [EvInvoke name (MAX_RETRIES this)])) = Datatypes.S (List.length l)
    /\ List.length (List.filter isSleep
      (flat_map f l ++ [EvInvoke name (MAX_RETRIES this)])) = List.length l).
  { induction l as [|k l [IH1 IH2]]; [split; reflexivity|].
    cbn. rewrite IH1, IH2. split; reflexivity. }
  specialize (Hgen (seq 0 (MAX_RETRIES this - attempt))).
  rewrite length_seq in Hgen. exact Hgen.
Qed.

Section Exhaustion.
Context {S T : Type}.
Variable this : EmailService.
Variable operation : Op S T.
Variable operationName : string.
Hypothesis always_retryable :
  forall s, exists error s',
    operation s = (inl error, s') /\ isNonRetryableError error = false.

Lemma retryLoop_exhausts remaining : forall attempt lastError (e : Env S),
  (attempt + remaining = MAX_RETRIES this)%nat ->
  exists t,
    retryLoop this operation operationName (Datatypes.S remaining) attempt lastError e
    = (outcomeOfInvocation operation remaining (ext e),
       mkEnv (afterInvocations operation (Datatypes.S remaining) (ext e))
         (randoms e) (randomsDrawn e + remaining) (trace e ++ t))
    /\ schedule t
       = exhaustedSchedule this operationName (randoms e) (randomsDrawn e) attempt.
Proof.
  induction remaining as [|remaining IH]; intros attempt lastError e Hsum.
  - destruct (always_retryable (ext e)) as (error & s' & Hop & Hclass).
    rewrite (retryLoop_retryable _ _ _ _ _ _ _ _ _ Hop Hclass).
    assert (Hlt : (attempt <? MAX_RETRIES this)%nat = false)
      by (apply Nat.ltb_ge; lia).
    rewrite Hlt. cbn [retryLoop]. unfold throw.
    eexists. split.
    + unfold outcomeOfInvocation, afterInvocations, Nat.iter.
      cbn [nat_rect ext randoms randomsDrawn trace].
      rewrite Hop. cbn [fst snd]. rewrite Nat.add_0_r. reflexivity.
    + replace attempt with (MAX_RETRIES this) by lia.
      rewrite exhaustedSchedule_last. reflexivity.
  - destruct (always_retryable (ext e)) as (error & s' & Hop & Hclass).
    rewrite (retryLoop_retryable _ _ _ _ _ _ _ _ _ Hop Hclass).
    assert (Hlt : (attempt <? MAX_RETRIES this)%nat = true)
      by (apply Nat.ltb_lt; lia).
    rewrite Hlt.
    edestruct (IH (Datatypes.S attempt) error) as (t & Hrun & Hsched);
      [| rewrite Hrun; clear Hrun ]; [lia|].
    cbn [ext randoms randomsDrawn trace] in *.
    eexists. split.
    + unfold outcomeOfInvocation, afterInvocations.
      rewrite !Nat.iter_succ_r. rewrite Hop. cbn [snd].
      rewrite <- app_assoc. f_equal. f_equal. lia.
    + rewrite schedule_app, Hsched.
      rewrite (exhaustedSchedule_step this operationName (randoms e) (randomsDrawn e) attempt) by lia.
      reflexivity.
Qed.
End Exhaustion.

Lemma isNonRetryableError_spec (error : JsValue) :
  isNonRetryableError error = true <->
  exists isErr props n,
    error = JObject isErr props /\
    props !! "statusCode" = Some (JNumber n) /\
    (n == 400 \/ n == 401 \/ n == 403 \/ n == 404)%Q.
Proof.
  unfold isNonRetryableError, nonRetryableStatusCodes. split.
  - destruct error as [| | | | |isErr props]; cbn; try discriminate.
    destruct (props !! "statusCode") as [v|] eqn:Hlookup; cbn; [|discriminate].
    destruct v as [| | |n| |]; cbn; try discriminate.
    rewrite orb_false_r, !orb_true_iff, !Qeq_bool_iff. intros Hcodes.
    exists isErr, props, n. repeat split; [assumption|]. tauto.
  - intros (isErr & props & n & -> & Hlookup & Hcodes). cbn.
    rewrite Hlookup. cbn.
    rewrite orb_false_r, !orb_true_iff, !Qeq_bool_iff. tauto.
Qed.

(** C2.  For every [MAX_RETRIES >= 1] and every operation that fails with a
    retryable error on each invocation, [retryWithBackoff] invokes the
    operation exactly [MAX_RETRIES] times, sleeps the backoff delay after
    every attempt but the last, and throws the error of the final
    invocation. *)
Theorem retry_exhaustion {S T} (this : EmailService) (operation : Op S T)
    (operationName : string) (e : Env S) :
  (1 <= MAX_RETRIES this)%nat ->
  (forall s, exists error s',
      operation s = (inl error, s') /\ isNonRetryableError error = false) ->
  exists t,
    retryWithBackoff this operation operationName e
    = (outcomeOfInvocation operation (MAX_RETRIES this - 1) (ext e),
       mkEnv (afterInvocations operation (MAX_RETRIES this) (ext e))
         (randoms e) (randomsDrawn e + (MAX_RETRIES this - 1)) (trace e ++ t))
    /\ schedule t
       = exhaustedSchedule this operationName (randoms e) (randomsDrawn e) 1
    /\ invocations t = MAX_RETRIES this
    /\ waits t = (MAX_RETRIES this - 1)%nat.
Proof.
  intros Hmax Hfails. unfold retryWithBackoff.
  destruct (MAX_RETRIES this) as [|remaining] eqn:Hn; [lia|].
  destruct (retryLoop_exhausts this operation operationName Hfails remaining
              1%nat JUndefined e) as (t & Hrun & Hsched); [lia|].
  exists t. rewrite Hrun, Hsched.
  replace (Datatypes.S remaining - 1)%nat with remaining by lia.
  split; [reflexivity|]. split; [reflexivity|].
  rewrite invocations_schedule, waits_schedule, Hsched.
  destruct (exhaustedSchedule_counts this operationName (randoms e)
              (randomsDrawn e) 1) as [Hinv Hwait]; [lia|].
  rewrite Hinv, Hwait, Hn. split; lia.
Qed.

Lemma retry_exhaustion_witness :
  exists t,
    retryWithBackoff (emailServiceOf sampleProcessEnv)
      (alwaysFails (restError 503 "unavailable")) "send"
      (mkEnv 0%nat (fun _ => 1 # 2) 0%nat [])
    = (inl (restError 503 "unavailable"),
       mkEnv 3%nat (fun _ => 1 # 2) 2%nat t)
    /\ schedule t = [EvInvoke "send" 1; EvSleep 2000; EvInvoke "send" 2;
                     EvSleep 4000; EvInvoke "send" 3]
    /\ invocations t = 3%nat.
Proof.
  destruct (retry_exhaustion (emailServiceOf sampleProcessEnv)
              (alwaysFails (restError 503 "unavailable")) "send"
              (mkEnv 0%nat (fun _ => 1 # 2) 0%nat []))
    as (t & Hrun & Hsched & Hinv & _).
  - cbn. lia.
  - intros s. exists (restError 503 "unavailable"), (Datatypes.S s).
    split; reflexivity.
  - exists t. split; [exact Hrun|]. split; [exact Hsched|exact Hinv].
Defined.

(** C3.  [isNonRetryableError] is true exactly for an object whose
    [statusCode] is the number 400, 401, 403 or 404.  An attempt that fails
    with such an error ends the loop at once: that one invocation, no
    sleep, the error rethrown, whatever [MAX_RETRIES] is; an operation
    that always fails with status 404 is invoked exactly once. *)
Theorem nonretryable_abort :
  (forall error : JsValue,
     isNonRetryableError error = true <->
     exists isErr props n,
       error = JObject isErr props /\
       props !! "statusCode" = Some (JNumber n) /\
       (n == 400 \/ n == 401 \/ n == 403 \/ n == 404)%Q)
  /\ (forall (S T : Type) (this : EmailService) (operation : Op S T)
        (operationName : string) (remaining attempt : nat) (lastError : JsValue)
        (e : Env S) (error : JsValue) (s' : S),
       operation (ext e) = (inl error, s') ->
       isNonRetryableError error = true ->
       exists t,
         retryLoop this operation operationName (Datatypes.S remaining) attempt
           lastError e
         = (inl error, mkEnv s' (randoms e) (randomsDrawn e) (trace e ++ t))
         /\ invocations t = 1%nat /\ waits t = 0%nat)
  /\ (forall (S T : Type) (this : EmailService) (operation : Op S T)
        (operationName : string) (e : Env S),
       (1 <= MAX_RETRIES this)%nat ->
       (forall s, exists isErr props s',
          operation s = (inl (JObject isErr props), s') /\
          props !! "statusCode" = Some (JNumber 404)) ->
       exists t,
         retryWithBackoff this operation operationName e
         = (outcomeOfInvocation operation 0 (ext e),
            mkEnv (afterInvocations operation 1 (ext e))
              (randoms e) (randomsDrawn e) (trace e ++ t))
         /\ invocations t = 1%nat /\ waits t = 0%nat).
Proof.
  split; [exact isNonRetryableError_spec|]. split.
  - intros S T this operation operationName remaining attempt lastError e error s'
      Hop Hclass.
    rewrite (retryLoop_nonretryable _ _ _ _ _ _ _ _ _ Hop Hclass).
    rewrite <- app_assoc. eexists. split; [reflexivity|]. split; reflexivity.
  - intros S T this operation operationName e Hmax Hfails.
    unfold retryWithBackoff.
    destruct (MAX_RETRIES this) as [|remaining]; [lia|].
    destruct (Hfails (ext e)) as (isErr & props & s' & Hop & Hcode).
    assert (Hclass : isNonRetryableError (JObject isErr props) = true).
    { apply isNonRetryableError_spec. exists isErr, props, 404%Q.
      split; [reflexivity|]. split; [exact Hcode|]. right; right; right; reflexivity. }
    rewrite (retryLoop_nonretryable _ _ _ _ _ _ _ _ _ Hop Hclass).
    rewrite <- app_assoc. eexists. split.
    + unfold outcomeOfInvocation, afterInvocations, Nat.iter. cbn [nat_rect].
      rewrite Hop. reflexivity.
    + split; reflexivity.
Qed.

Lemma nonretryable_abort_witness :
  exists t,
    retryWithBackoff (emailServiceOf sampleProcessEnv)
      (alwaysFails (restError 404 "not found")) "send"
      (mkEnv 0%nat (fun _ => 1 # 2) 0%nat [])
    = (inl (restError 404 "not found"), mkEnv 1%nat (fun _ => 1 # 2) 0%nat t)
    /\ invocations t = 1%nat /\ waits t = 0%nat.
Proof.
  destruct nonretryable_abort as (_ & _ & Honce).
  destruct (Honce nat unit (emailServiceOf sampleProcessEnv)
              (alwaysFails (restError 404 "not found")) "send"
              (mkEnv 0%nat (fun _ => 1 # 2) 0%nat []))
    as (t & Hrun & Hcount).
  - cbn. lia.
  - intros s. eexists true, _, (Datatypes.S s). split; [reflexivity|].
    reflexivity.
  - exists t. split; [exact Hrun|exact Hcount].
Defined.

(** ** The store *)

Lemma drain_all {Item} (fuel : nat) : forall it : QueryIterator Item,
  (forall size, maxItemCount it = Some size -> (1 <= size)%nat) ->
  (List.length (rows it) <= fuel)%nat ->
  drain fuel it = rows it.
Proof.
  induction fuel as [|fuel IH]; intros it Hsize Hlen.
  - destruct (rows it); [reflexivity|cbn in Hlen; lia].
  - cbn [drain]. destruct (rows it) as [|row rest] eqn:Hrows; [reflexivity|].
    unfold fetchNext. destruct (maxItemCount it) as [size|] eqn:Hmax.
    + rewrite IH.
      * cbn [rows]. rewrite Hrows. apply firstn_skipn.
      * cbn [maxItemCount]. intros size' [= <-]. auto.
      * cbn [rows]. rewrite Hrows, length_skipn.
        specialize (Hsize size eq_refl). cbn in *. lia.
    + rewrite Hrows. destruct fuel; cbn; rewrite app_nil_r; reflexivity.
Qed.

Lemma allPages_all {Item} (it : QueryIterator Item) :
  (forall size, maxItemCount it = Some size -> (1 <= size)%nat) ->
  allPages it = rows it.
Proof. intros Hsize. apply drain_all; [exact Hsize|lia]. Qed.

Lemma mailOnly_refl b : mailOnly b b.
Proof.
  repeat split. exists []. rewrite app_nil_r. split; reflexivity.
Qed.

Lemma mailOnly_trans b1 b2 b3 : mailOnly b1 b2 -> mailOnly b2 b3 -> mailOnly b1 b3.
Proof.
  intros (H1 & H2 & H3 & H4 & H5 & s12 & Hc12 & Hs12)
         (K1 & K2 & K3 & K4 & K5 & s23 & Hc23 & Hs23).
  repeat split; try congruence.
  exists (s12 ++ s23). rewrite Hc23, Hc12, <- app_assoc. split; [reflexivity|].
  rewrite forallb_app, Hs12, Hs23. reflexivity.
Qed.

Lemma gatewayCall_mailOnly c b : isSend c = true -> mailOnly b (snd (gatewayCall c b)).
Proof.
  intros Hc. unfold gatewayCall.
  destruct (nextReply (emailReplies (record c b))) as [r rest].
  assert (Hb : mailOnly b (setEmailReplies rest (record c b))).
  { repeat split. exists [c]. split; [reflexivity|]. cbn. rewrite Hc. reflexivity. }
  destruct r; exact Hb.
Qed.

Lemma sendOperation_mailOnly msg b : mailOnly b (snd (sendOperation msg b)).
Proof.
  unfold sendOperation, beginSend, pollUntilDone.
  pose proof (gatewayCall_mailOnly (CallBeginSend msg) b eq_refl) as H1.
  destruct (gatewayCall (CallBeginSend msg) b) as [[reason|[]] b1]; [exact H1|].
  cbn [snd] in H1.
  eapply mailOnly_trans; [exact H1|]. apply gatewayCall_mailOnly. reflexivity.
Qed.

Section RetryFrame.
Context {S T : Type}.
Variable R : S -> S -> Prop.
Hypothesis R_refl : forall s, R s s.
Hypothesis R_trans : forall s1 s2 s3, R s1 s2 -> R s2 s3 -> R s1 s3.
Variable this : EmailService.
Variable operation : Op S T.
Variable operationName : string.
Hypothesis operation_R : forall s, R s (snd (operation s)).

Lemma retryLoop_frame remaining : forall attempt lastError (e : Env S),
  R (ext e)
    (ext (snd (retryLoop this operation operationName remaining attempt lastError e))).
Proof.
  induction remaining as [|remaining IH]; intros attempt lastError e.
  - apply R_refl.
  - pose proof (operation_R (ext e)) as Hstep.
    destruct (operation (ext e)) as [[error|result] s'] eqn:Hop; cbn [snd] in Hstep.
    + destruct (isNonRetryableError error) eqn:Hclass.
      * rewrite (retryLoop_nonretryable _ _ _ _ _ _ _ _ _ Hop Hclass). exact Hstep.
      * rewrite (retryLoop_retryable _ _ _ _ _ _ _ _ _ Hop Hclass).
        eapply R_trans; [exact Hstep|].
        destruct (attempt <? MAX_RETRIES this)%nat;
          match goal with
          | |- R _ (ext (snd (retryLoop _ _ _ _ ?a ?l ?env))) =>
              exact (IH a l env)
          end.
    + rewrite (retryLoop_success _ _ _ _ _ _ _ _ _ Hop). exact Hstep.
Qed.

Lemma retryWithBackoff_frame (e : Env S) :
  R (ext e) (ext (snd (retryWithBackoff this operation operationName e))).
Proof. apply retryLoop_frame. Qed.
End RetryFrame.

Lemma sendContactConfirmationEmail_mailOnly this submission (e : Env Backend) :
  mailOnly (ext e) (ext (snd (sendContactConfirmationEmail this submission e))).
Proof.
  unfold sendContactConfirmationEmail, tryCatch, bind.
  match goal with
  | |- context [retryWithBackoff this ?op ?name e] =>
      pose proof (retryWithBackoff_frame mailOnly mailOnly_refl mailOnly_trans
                    this op name (sendOperation_mailOnly _) e) as Hsend;
      destruct (retryWithBackoff this op name e) as [[cause|[]] e1]
  end; exact Hsend.
Qed.

Lemma sendContactNotificationEmail_returns this submission (e : Env Backend) :
  fst (sendContactNotificationEmail this submission e) = inr tt
  /\ mailOnly (ext e) (ext (snd (sendContactNotificationEmail this submission e))).
Proof.
  unfold sendContactNotificationEmail, tryCatch, bind.
  match goal with
  | |- context [retryWithBackoff this ?op ?name e] =>
      pose proof (retryWithBackoff_frame mailOnly mailOnly_refl mailOnly_trans
                    this op name (sendOperation_mailOnly _) e) as Hsend;
      destruct (retryWithBackoff this op name e) as [[cause|[]] e1]
  end; split; solve [reflexivity | exact Hsend].
Qed.

Lemma contactFormNotify_eq this submission (e : Env Backend) :
  contactFormNotify this submission e
  = match sendContactConfirmationEmail this submission e with
    | (inl _, e1) =>
        (inr (contactDegraded submission),
         logged [EvLog LevelError "Failed to send confirmation email after retries"] e1)
    | (inr _, e1) =>
        (inr (contactSuccess submission),
         snd (fireAndForget
                (sendContactNotificationEmail this submission)
                (contextLog "Admin notification sent successfully")
                (fun _ => contextWarn "Failed to send admin notification (non-critical)")
                (logged [EvLog LevelLog "Confirmation email sent successfully"] e1)))
    end.
Proof.
  unfold contactFormNotify, bind, tryCatch.
  destruct (sendContactConfirmationEmail this submission e) as [[cause|[]] e1];
    [reflexivity|].
  cbn. unfold logged. cbn.
  destruct (fireAndForget _ _ _ _) as [[?|[]] e3] eqn:Hff; [|reflexivity].
  unfold fireAndForget in Hff.
  destruct (tryCatch _ _ _) in Hff. discriminate.
Qed.

Lemma fireAndForget_notification_mailOnly this submission (e : Env Backend) :
  mailOnly (ext e)
    (ext (snd (fireAndForget
                 (sendContactNotificationEmail this submission)
                 (contextLog "Admin notification sent successfully")
                 (fun _ => contextWarn "Failed to send admin notification (non-critical)")
                 e))).
Proof.
  unfold fireAndForget, tryCatch, bind.
  destruct (sendContactNotificationEmail_returns this submission e) as [Hret Hmail].
  destruct (sendContactNotificationEmail this submission e) as [[cause|[]] e3];
    [discriminate|]. exact Hmail.
Qed.

Lemma contactFormNotify_cases this submission (e : Env Backend) :
  (fst (contactFormNotify this submission e) = inr (contactDegraded submission)
   \/ fst (contactFormNotify this submission e) = inr (contactSuccess submission))
  /\ mailOnly (ext e) (ext (snd (contactFormNotify this submission e))).
Proof.
  rewrite contactFormNotify_eq.
  pose proof (sendContactConfirmationEmail_mailOnly this submission e) as Hconf.
  destruct (sendContactConfirmationEmail this submission e) as [[cause|[]] e1];
    cbn [snd fst] in *.
  - split; [left; reflexivity| exact Hconf].
  - split; [right; reflexivity|].
    eapply mailOnly_trans; [exact Hconf|].
    apply (fireAndForget_notification_mailOnly this submission
             (logged [EvLog LevelLog "Confirmation email sent successfully"] e1)).
Qed.

#[local] Arguments sanitizeString : simpl never.
#[local] Arguments trim : simpl never.
#[local] Arguments toLowerCase : simpl never.
#[local] Arguments String.append : simpl never.

Lemma contactFormPersist_cases body (e : Env Backend) :
  match contactFormPersist body e with
  | (inl _, e') =>
      ContactSubmissions (ext e') = ContactSubmissions (ext e)
      /\ WaitlistSubmissions (ext e') = WaitlistSubmissions (ext e)
      /\ exists new, calls (ext e') = calls (ext e) ++ new /\ noSend new = true
  | (inr (_, submission), e') =>
      ContactSubmissions (ext e') = ContactSubmissions (ext e) ++ [submission]
      /\ WaitlistSubmissions (ext e') = WaitlistSubmissions (ext e)
      /\ calls (ext e') = calls (ext e) ++ [CallCreateContact submission]
  end.
Proof.
  destruct e as [b random drawn t].
  destruct b as [pe contacts wl replies mail ids idsDrawn clock log].
  unfold contactFormPersist, newDatabaseService, newEmailService, isoNow,
    createContactSubmission, logAndRethrow, bind, tryCatch, perform,
    itemsCreateContact, cosmosCall, randomUUID, contextLog, consoleError, emit, ret, throw.
  cbn.
  destruct (unset (COSMOS_CONNECTION_STRING pe)); cbn.
  { repeat split. exists []. rewrite app_nil_r. split; reflexivity. }
  destruct (unset (COMMUNICATION_SERVICES_CONNECTION_STRING pe)); cbn.
  { repeat split. exists []. rewrite app_nil_r. split; reflexivity. }
  destruct replies as [|[|reason|] rest]; cbn.
  - repeat split.
  - repeat split.
  - repeat split. eexists [_]. split; reflexivity.
  - repeat split. eexists [_]. split; reflexivity.
Qed.

Lemma handlerCatch_total {D} logText genericMessage error (e : Env Backend) :
  exists response : HttpResponse D,
    handlerCatch logText genericMessage error e
    = (inr response, logged [EvLog LevelError logText] e)
    /\ data response = None /\ success response = false.
Proof.
  unfold handlerCatch, bind, contextError, emit, showDetailedErrors, perform, ret, logged.
  cbn.
  destruct (instanceofError error && includes "Resource Not Found" (messageOf error));
    eexists; (split; [reflexivity|split; reflexivity]).
Qed.

Lemma noSend_app l1 l2 : noSend (l1 ++ l2) = noSend l1 && noSend l2.
Proof. apply forallb_app. Qed.

Lemma contactForm_cases (request : HttpRequest) (e : Env Backend) :
  exists response e',
    contactForm request e = (inr response, e')
    /\ WaitlistSubmissions (ext e') = WaitlistSubmissions (ext e)
    /\ ((data response = None
         /\ ContactSubmissions (ext e') = ContactSubmissions (ext e)
         /\ exists new, calls (ext e') = calls (ext e) ++ new /\ noSend new = true)
        \/ (exists submission sends,
              (response = contactDegraded submission
               \/ response = contactSuccess submission)
              /\ ContactSubmissions (ext e')
                 = ContactSubmissions (ext e) ++ [submission]
              /\ calls (ext e')
                 = calls (ext e) ++ CallCreateContact submission :: sends
              /\ forallb isSend sends = true)).
Proof.
  unfold contactForm. unfold bind at 1. unfold contextLog at 1, emit at 1.
  unfold tryCatch, bind at 1, requestJson.
  set (e0 := mkEnv _ _ _ _).
  assert (Hnone : forall (r : HttpResponse ContactData) (e' : Env Backend),
    data r = None -> ext e' = ext e ->
    exists response e'',
      (inr r : Outcome _, e') = (inr response, e'')
      /\ WaitlistSubmissions (ext e'') = WaitlistSubmissions (ext e)
      /\ ((data response = None
           /\ ContactSubmissions (ext e'') = ContactSubmissions (ext e)
           /\ exists new, calls (ext e'') = calls (ext e) ++ new /\ noSend new = true)
          \/ (exists submission sends,
                (response = contactDegraded submission
                 \/ response = contactSuccess submission)
                /\ ContactSubmissions (ext e'')
                   = ContactSubmissions (ext e) ++ [submission]
                /\ calls (ext e'')
                   = calls (ext e) ++ CallCreateContact submission :: sends
                /\ forallb isSend sends = true))).
  { intros r e' Hdata Hext. exists r, e'. split; [reflexivity|]. rewrite Hext.
    split; [reflexivity|]. left. split; [exact Hdata|]. split; [reflexivity|].
    exists []. rewrite app_nil_r. split; reflexivity. }
  destruct request as [error|body]; cbn [fst snd].
  - destruct (handlerCatch_total (D := ContactData) "Error processing contact form:"
      "An error occurred while processing your message. Please try again later."
      error e0) as (r & -> & Hdata & _).
    apply Hnone; [exact Hdata|reflexivity].
  - unfold bind at 1. unfold contextLog at 1, emit at 1.
    set (e1 := mkEnv _ _ _ _).
    destruct (validateContactSubmission body) as [msg|].
    + unfold bind, contextWarn, emit, ret. cbn. apply Hnone; reflexivity.
    + unfold bind at 1.
      pose proof (contactFormPersist_cases body e1) as Hpersist.
      destruct (contactFormPersist body e1) as [[error|[this submission]] e2].
      * destruct Hpersist as (Hc & Hw & new & Hcalls & Hnew).
        destruct (handlerCatch_total (D := ContactData) "Error processing contact form:"
          "An error occurred while processing your message. Please try again later."
          error e2) as (r & -> & Hdata & _).
        exists r, (logged [EvLog LevelError "Error processing contact form:"] e2).
        split; [reflexivity|]. cbn [logged ext].
        split; [exact Hw|]. left. split; [exact Hdata|]. split; [exact Hc|].
        exists new. split; assumption.
      * destruct Hpersist as (Hc & Hw & Hcalls). cbn [fst snd].
        destruct (contactFormNotify_cases this submission e2)
          as (Hresp & Hp & Hc' & Hw' & Hr & Hu & sends & Hcalls' & Hsends).
        destruct (contactFormNotify this submission e2) as [[error|response] e3];
          cbn [fst snd] in *.
        { destruct Hresp; discriminate. }
        exists response, e3. split; [reflexivity|].
        split; [rewrite Hw', Hw; reflexivity|]. right. exists submission, sends.
        split; [destruct Hresp as [[= ->]|[= ->]]; auto|].
        split; [rewrite Hc', Hc; reflexivity|].
        split; [|exact Hsends].
        rewrite Hcalls', Hcalls, <- app_assoc. reflexivity.
Qed.

Lemma getWaitlistSubmissionByEmail_eq email (e : Env Backend) :
  let b1 := record (CallQuery "WaitlistSubmissions" (query (waitlistByEmail email))) (ext e) in
  let b2 := setCosmosReplies (snd (nextReply (cosmosReplies b1))) b1 in
  getWaitlistSubmissionByEmail email e
  = match fst (nextReply (cosmosReplies b1)) with
    | Rejected reason =>
        (inl reason,
         mkEnv b2 (randoms e) (randomsDrawn e)
           (trace e ++ [EvLog LevelError "Error fetching waitlist submission by email"]))
    | _ =>
        (inr (head (List.filter (whereClause (waitlistByEmail email))
                      (WaitlistSubmissions (ext e)))),
         mkEnv b2 (randoms e) (randomsDrawn e) (trace e))
    end.
Proof.
  intros b1 b2. subst b1 b2.
  unfold getWaitlistSubmissionByEmail, logAndRethrow, tryCatch, bind, perform,
    fetchAll, cosmosCall, ret, throw, consoleError, emit.
  rewrite allPages_all by (cbn; intros size [= <-]; lia).
  cbn [itemsQuery rows sortRows orderBy waitlistByEmail].
  destruct (nextReply _) as [[|reason|] rest]; cbn;
    try reflexivity;
    destruct (List.filter _ _); reflexivity.
Qed.

Lemma waitlistLookup_cases body (e : Env Backend) :
  exists new,
    calls (ext (snd (waitlistLookup body e))) = calls (ext e) ++ new
    /\ noSend new = true
    /\ ContactSubmissions (ext (snd (waitlistLookup body e))) = ContactSubmissions (ext e)
    /\ WaitlistSubmissions (ext (snd (waitlistLookup body e)))
       = WaitlistSubmissions (ext e).
Proof.
  unfold waitlistLookup, newDatabaseService, newEmailService, bind, ret.
  destruct (unset (COSMOS_CONNECTION_STRING (processEnv (ext e)))).
  { exists []. rewrite app_nil_r. repeat split. }
  destruct (unset (COMMUNICATION_SERVICES_CONNECTION_STRING (processEnv (ext e)))).
  { exists []. rewrite app_nil_r. repeat split. }
  rewrite getWaitlistSubmissionByEmail_eq.
  destruct (nextReply _) as [[|reason|] rest]; cbn; eexists [_]; repeat split.
Qed.

Lemma createWaitlistSubmission_cases submission (e : Env Backend) :
  ContactSubmissions (ext (snd (createWaitlistSubmission submission e)))
    = ContactSubmissions (ext e)
  /\ exists new,
       calls (ext (snd (createWaitlistSubmission submission e))) = calls (ext e) ++ new
       /\ noSend new = true
       /\ match fst (createWaitlistSubmission submission e) with
          | inl _ =>
              WaitlistSubmissions (ext (snd (createWaitlistSubmission submission e)))
              = WaitlistSubmissions (ext e)
          | inr created =>
              WaitlistSubmissions (ext (snd (createWaitlistSubmission submission e)))
              = WaitlistSubmissions (ext e) ++ [created]
              /\ In (CallCreateWaitlist created) new
          end.
Proof.
  destruct e as [b random drawn t].
  destruct b as [pe contacts wl replies mail ids idsDrawn clock log].
  unfold createWaitlistSubmission, getWaitlistCount, logAndRethrow, bind, tryCatch,
    perform, ret, throw, fetchAll, itemsCreateWaitlist, cosmosCall, randomUUID,
    consoleError, emit.
  cbn.
  destruct replies as [|[|reason1|] [|[|reason2|] rest]]; cbn;
    (split; [reflexivity|]);
    first [ eexists [_; _]; cbn; rewrite <- app_assoc; cbn;
            split; [reflexivity|]; split; [reflexivity|];
            first [ reflexivity | split; [reflexivity|]; right; left; reflexivity ]
          | eexists [_]; cbn; split; [reflexivity|]; split; reflexivity ].
Qed.

Lemma waitlistName_pure name (e : Env Backend) :
  exists r, waitlistName name e = (r, e).
Proof.
  unfold waitlistName. destruct (truthy name); [destruct name|]; eexists; reflexivity.
Qed.

Lemma waitlistPersist_cases body (e : Env Backend) :
  ContactSubmissions (ext (snd (waitlistPersist body e))) = ContactSubmissions (ext e)
  /\ exists new,
       calls (ext (snd (waitlistPersist body e))) = calls (ext e) ++ new
       /\ noSend new = true
       /\ match fst (waitlistPersist body e) with
          | inl _ =>
              WaitlistSubmissions (ext (snd (waitlistPersist body e)))
              = WaitlistSubmissions (ext e)
          | inr created =>
              WaitlistSubmissions (ext (snd (waitlistPersist body e)))
              = WaitlistSubmissions (ext e) ++ [created]
              /\ In (CallCreateWaitlist created) new
          end.
Proof.
  unfold waitlistPersist, bind.
  destruct (waitlistName_pure (getProp "name" body) e) as [[error|name] ->].
  { cbn. split; [reflexivity|]. exists []. rewrite app_nil_r. repeat split. }
  unfold isoNow, perform. cbn [fst snd ext randoms randomsDrawn trace].
  match goal with
  | |- context [createWaitlistSubmission ?s ?env] =>
      pose proof (createWaitlistSubmission_cases s env) as Hcreate;
      destruct (createWaitlistSubmission s env) as [[error|created] e1]
  end; cbn [fst snd ext] in *; exact Hcreate.
Qed.

Lemma waitlistNotify_eq this submission (e : Env Backend) :
  waitlistNotify this submission e
  = (inr (waitlistDegraded submission),
     logged [EvLog LevelError "Failed to send waitlist confirmation email after retries"] e).
Proof. reflexivity. Qed.

Lemma waitlist_cases (request : HttpRequest) (e : Env Backend) :
  exists response e',
    waitlist request e = (inr response, e')
    /\ ContactSubmissions (ext e') = ContactSubmissions (ext e)
    /\ exists new,
         calls (ext e') = calls (ext e) ++ new
         /\ noSend new = true
         /\ (WaitlistSubmissions (ext e') = WaitlistSubmissions (ext e)
             \/ exists submission,
                  response = waitlistDegraded submission
                  /\ WaitlistSubmissions (ext e')
                     = WaitlistSubmissions (ext e) ++ [submission]
                  /\ In (CallCreateWaitlist submission) new).
Proof.
  unfold waitlist. unfold bind at 1. unfold contextLog at 1, emit at 1.
  unfold tryCatch, bind at 1, requestJson.
  set (e0 := mkEnv _ _ _ _).
  assert (Hsame : forall (r : HttpResponse WaitlistData) (e' : Env Backend) new,
    ContactSubmissions (ext e') = ContactSubmissions (ext e) ->
    WaitlistSubmissions (ext e') = WaitlistSubmissions (ext e) ->
    calls (ext e') = calls (ext e) ++ new -> noSend new = true ->
    exists response e'',
      (inr r : Outcome _, e') = (inr response, e'')
      /\ ContactSubmissions (ext e'') = ContactSubmissions (ext e)
      /\ exists new,
           calls (ext e'') = calls (ext e) ++ new
           /\ noSend new = true
           /\ (WaitlistSubmissions (ext e'') = WaitlistSubmissions (ext e)
               \/ exists submission,
                    response = waitlistDegraded submission
                    /\ WaitlistSubmissions (ext e'')
                       = WaitlistSubmissions (ext e) ++ [submission]
                    /\ In (CallCreateWaitlist submission) new)).
  { intros r e' new Hc Hw Hcalls Hnew. exists r, e'. split; [reflexivity|].
    split; [exact Hc|]. exists new. split; [exact Hcalls|]. split; [exact Hnew|].
    left. exact Hw. }
  assert (Hnil : calls (ext e) = calls (ext e) ++ []) by (rewrite app_nil_r; reflexivity).
  destruct request as [error|body]; cbn [fst snd].
  - destruct (handlerCatch_total (D := WaitlistData) "Error processing waitlist submission:"
      "An error occurred while processing your waitlist signup. Please try again later."
      error e0) as (r & -> & _).
    eapply Hsame; [reflexivity|reflexivity|exact Hnil|reflexivity].
  - unfold bind at 1. unfold contextLog at 1, emit at 1.
    set (e1 := mkEnv _ _ _ _).
    destruct (validateWaitlistSubmission body) as [msg|].
    + unfold bind, contextWarn, emit, ret. cbn.
      eapply Hsame; [reflexivity|reflexivity|exact Hnil|reflexivity].
    + unfold bind at 1.
      destruct (waitlistLookup_cases body e1) as (new1 & Hcalls1 & Hnew1 & Hc1 & Hw1).
      destruct (waitlistLookup body e1) as [[error|[this found]] e2]; cbn [fst snd] in *.
      * destruct (handlerCatch_total (D := WaitlistData)
          "Error processing waitlist submission:"
          "An error occurred while processing your waitlist signup. Please try again later."
          error e2) as (r & -> & _).
        eapply Hsame; [exact Hc1|exact Hw1|exact Hcalls1|exact Hnew1].
      * destruct found as [existing|].
        { unfold bind, contextLog, emit, ret. cbn.
          eapply Hsame; [exact Hc1|exact Hw1|exact Hcalls1|exact Hnew1]. }
        unfold bind at 1.
        destruct (waitlistPersist_cases body e2) as (Hc2 & new2 & Hcalls2 & Hnew2 & Hw2).
        destruct (waitlistPersist body e2) as [[error|submission] e3]; cbn [fst snd] in *.
        { destruct (handlerCatch_total (D := WaitlistData)
            "Error processing waitlist submission:"
            "An error occurred while processing your waitlist signup. Please try again later."
            error e3) as (r & -> & _).
          eapply (Hsame _ _ (new1 ++ new2)); cbn [logged ext].
          - rewrite Hc2. exact Hc1.
          - rewrite Hw2. exact Hw1.
          - rewrite Hcalls2, Hcalls1, app_assoc. reflexivity.
          - rewrite noSend_app, Hnew1, Hnew2. reflexivity. }
        rewrite waitlistNotify_eq. destruct Hw2 as [Hw2 Hin].
        eexists _, _. split; [reflexivity|]. cbn [logged ext].
        split; [rewrite Hc2; exact Hc1|].
        exists (new1 ++ new2).
        split; [rewrite Hcalls2, Hcalls1, app_assoc; reflexivity|].
        split; [rewrite noSend_app, Hnew1, Hnew2; reflexivity|].
        right. exists submission. split; [reflexivity|].
        split; [rewrite Hw2, Hw1; reflexivity|].
        apply in_or_app. right. exact Hin.
Qed.

(** C7.  When the store answers, [createWaitlistSubmission] gives the new
    record [position = count(active) + 1], the count being read before the
    record is written (the count query precedes the create call and does
    not see the new record), so five active records give position 6; its
    [id] is ['waitlist-'] followed by the next UUID drawn, whatever the
    caller passed. *)
Theorem waitlist_position (submission : NewWaitlist.t) (e : Env Backend) :
  answers 2 (cosmosReplies (ext e)) = true ->
  let count := Z.of_nat (List.length (activeRecords (WaitlistSubmissions (ext e)))) in
  let created :=
    WaitlistSubmission.Build
      ("waitlist-" ++ uuids (ext e) (uuidsDrawn (ext e)))%string
      (NewWaitlist.email submission) (NewWaitlist.name submission)
      (NewWaitlist.status submission) (count + 1)
      (NewWaitlist.submittedAt submission) (NewWaitlist.email submission) in
  exists e',
    createWaitlistSubmission submission e = (inr created, e')
    /\ WaitlistSubmissions (ext e') = WaitlistSubmissions (ext e) ++ [created]
    /\ calls (ext e')
       = calls (ext e) ++ [CallQuery "WaitlistSubmissions" (query activeCount);
                           CallCreateWaitlist created]
    /\ uuidsDrawn (ext e') = Datatypes.S (uuidsDrawn (ext e))
    /\ (count = 5 -> WaitlistSubmission.position created = 6).
Proof.
  intros Hanswers count created.
  destruct e as [b random drawn t]. cbn [ext] in *.
  unfold createWaitlistSubmission, getWaitlistCount, logAndRethrow, bind, tryCatch,
    perform, ret, fetchAll, itemsCreateWaitlist, cosmosCall, randomUUID.
  cbn [ext randoms randomsDrawn trace].
  unfold answers in Hanswers.
  destruct b as [pe contacts wl replies mail ids idsDrawn clock log].
  cbn [cosmosReplies] in Hanswers. cbn.
  assert (Hdone : forall replies',
    exists e',
      (inr created : Outcome WaitlistSubmission.t,
       mkEnv
         (setWaitlist (wl ++ [created])
            (setCosmosReplies replies'
               (record (CallCreateWaitlist created)
                  (record (CallQuery "WaitlistSubmissions" (query activeCount))
                     (setUuidsDrawn (Datatypes.S idsDrawn)
                        (Build_Backend pe contacts wl replies mail ids idsDrawn clock log))))))
         random drawn t) = (inr created, e')
      /\ WaitlistSubmissions (ext e') = wl ++ [created]
      /\ calls (ext e')
         = log ++ [CallQuery "WaitlistSubmissions" (query activeCount);
                   CallCreateWaitlist created]
      /\ uuidsDrawn (ext e') = Datatypes.S idsDrawn
      /\ (count = 5 -> WaitlistSubmission.position created = 6)).
  { intros replies'. eexists. split; [reflexivity|]. cbn.
    split; [reflexivity|]. split; [rewrite <- app_assoc; reflexivity|].
    split; [reflexivity|]. intros Hfive. subst created. cbn. lia. }
  destruct replies as [|[| |] [|[| |] replies]]; cbn in Hanswers |- *;
    try discriminate; apply Hdone.
Qed.

Lemma waitlist_position_witness :
  exists e',
    createWaitlistSubmission
      (NewWaitlist.Build "sam@example.org" None StatusActive "2024-05-01T10:00:00.000Z")
      (sampleEnv (setWaitlist sampleWaitlist sampleBackend))
    = (inr (WaitlistSubmission.Build "waitlist-A" "sam@example.org" None StatusActive 6
              "2024-05-01T10:00:00.000Z" "sam@example.org"), e').
Proof.
  destruct (waitlist_position
              (NewWaitlist.Build "sam@example.org" None StatusActive
                 "2024-05-01T10:00:00.000Z")
              (sampleEnv (setWaitlist sampleWaitlist sampleBackend)))
    as (e' & Hrun & _).
  - reflexivity.
  - exists e'. exact Hrun.
Defined.

(** ** The listings *)

Lemma getAllContactSubmissions_eq status limit (e : Env Backend) :
  (1 <= default 100 limit)%nat ->
  answers 1 (cosmosReplies (ext e)) = true ->
  exists e',
    getAllContactSubmissions status limit e
    = (inr (sortRows (orderBy (contactsByStatus status))
              (List.filter (whereClause (contactsByStatus status))
                 (ContactSubmissions (ext e)))), e').
Proof.
  intros Hlimit Hanswers.
  unfold getAllContactSubmissions, logAndRethrow, tryCatch, perform, fetchAll, cosmosCall.
  rewrite allPages_all by (cbn; intros size [= <-]; exact Hlimit).
  cbn [itemsQuery rows ext record cosmosReplies].
  unfold answers in Hanswers.
  destruct (cosmosReplies (ext e)) as [|[| |] rest]; cbn in Hanswers |- *;
    try discriminate; eexists; reflexivity.
Qed.

Lemma getAllWaitlistSubmissions_eq status limit (e : Env Backend) :
  (1 <= default 100 limit)%nat ->
  answers 1 (cosmosReplies (ext e)) = true ->
  exists e',
    getAllWaitlistSubmissions status limit e
    = (inr (sortRows (orderBy (waitlistByStatus status))
              (List.filter (whereClause (waitlistByStatus status))
                 (WaitlistSubmissions (ext e)))), e').
Proof.
  intros Hlimit Hanswers.
  unfold getAllWaitlistSubmissions, logAndRethrow, tryCatch, perform, fetchAll, cosmosCall.
  rewrite allPages_all by (cbn; intros size [= <-]; exact Hlimit).
  cbn [itemsQuery rows ext record cosmosReplies].
  unfold answers in Hanswers.
  destruct (cosmosReplies (ext e)) as [|[| |] rest]; cbn in Hanswers |- *;
    try discriminate; eexists; reflexivity.
Qed.

#[local] Instance newestFirst_total :
  Total (precedes (fun a b =>
    String.leb (ContactSubmission.submittedAt b) (ContactSubmission.submittedAt a))).
Proof.
  intros a b. unfold precedes.
  destruct (String.leb_total (ContactSubmission.submittedAt b)
              (ContactSubmission.submittedAt a)); auto.
Qed.

#[local] Instance lowestPositionFirst_total :
  Total (precedes (fun a b =>
    (WaitlistSubmission.position a <=? WaitlistSubmission.position b)%Z)).
Proof.
  intros a b. unfold precedes. rewrite !Z.leb_le. lia.
Qed.

Lemma contact_listing (status : option ContactStatus) (docs : list ContactSubmission.t) :
  let l := sortRows (orderBy (contactsByStatus status))
             (List.filter (whereClause (contactsByStatus status)) docs) in
  Sorted newestFirst l
  /\ Forall (contactMatches status) l
  /\ (forall c, In c l <-> In c docs /\ contactMatches status c)
  /\ List.length l
     = List.length (List.filter (whereClause (contactsByStatus status)) docs).
Proof.
  intros l.
  assert (Hperm : l ≡ₚ List.filter (whereClause (contactsByStatus status)) docs).
  { subst l. destruct status; apply merge_sort_Permutation. }
  assert (Hin : forall c, In c l <-> In c docs /\ contactMatches status c).
  { intros c. rewrite <- !list_elem_of_In, Hperm, list_elem_of_In, filter_In.
    rewrite <- list_elem_of_In.
    destruct status as [wanted|]; cbn; [rewrite bool_decide_eq_true|]; tauto. }
  split; [|split; [|split]].
  - subst l. destruct status; cbn; apply (Sorted_merge_sort _).
  - apply List.Forall_forall. intros c Hc. apply Hin in Hc. tauto.
  - exact Hin.
  - apply Permutation_length. exact Hperm.
Qed.

Lemma Sorted_weaken {A} (R R' : relation A) (l : list A) :
  (forall a b, R a b -> R' a b) -> Sorted R l -> Sorted R' l.
Proof.
  intros Himpl Hsorted. induction Hsorted as [|a l _ IH Hhd]; constructor.
  - exact IH.
  - destruct Hhd; constructor. apply Himpl. assumption.
Qed.

Lemma waitlist_listing (status : option WaitlistStatus)
    (docs : list WaitlistSubmission.t) :
  let l := sortRows (orderBy (waitlistByStatus status))
             (List.filter (whereClause (waitlistByStatus status)) docs) in
  Sorted lowestPositionFirst l
  /\ Forall (waitlistMatches status) l
  /\ (forall c, In c l <-> In c docs /\ waitlistMatches status c)
  /\ List.length l
     = List.length (List.filter (whereClause (waitlistByStatus status)) docs).
Proof.
  intros l.
  assert (Hperm : l ≡ₚ List.filter (whereClause (waitlistByStatus status)) docs).
  { subst l. destruct status; apply merge_sort_Permutation. }
  assert (Hin : forall c, In c l <-> In c docs /\ waitlistMatches status c).
  { intros c. rewrite <- !list_elem_of_In, Hperm, list_elem_of_In, filter_In.
    rewrite <- list_elem_of_In.
    destruct status as [wanted|]; cbn; [rewrite bool_decide_eq_true|]; tauto. }
  split; [|split; [|split]].
  - subst l.
    assert (Hsorted : forall le' : WaitlistSubmission.t -> WaitlistSubmission.t -> bool,
      le' = (fun a b => (WaitlistSubmission.position a <=? WaitlistSubmission.position b)%Z) ->
      forall rows, Sorted lowestPositionFirst (merge_sort (precedes le') rows)).
    { intros le' -> rows.
      eapply Sorted_weaken; [|apply (Sorted_merge_sort _)].
      intros a b Hab. unfold precedes in Hab. apply Z.leb_le in Hab. exact Hab. }
    destruct status; cbn; apply Hsorted; reflexivity.
  - apply List.Forall_forall. intros c Hc. apply Hin in Hc. tauto.
  - exact Hin.
  - apply Permutation_length. exact Hperm.
Qed.

(** The listings are sorted, filtered by status, and hold every matching
    record, whatever [limit] is. *)
Lemma listings_sorted_filtered_complete :
  (forall status limit (e : Env Backend),
     (1 <= default 100 limit)%nat ->
     answers 1 (cosmosReplies (ext e)) = true ->
     exists l e',
       getAllContactSubmissions status limit e = (inr l, e')
       /\ Sorted newestFirst l
       /\ Forall (contactMatches status) l
       /\ (forall c, In c l <-> In c (ContactSubmissions (ext e)) /\ contactMatches status c)
       /\ List.length l
          = List.length (List.filter (whereClause (contactsByStatus status))
                           (ContactSubmissions (ext e))))
  /\ (forall status limit (e : Env Backend),
        (1 <= default 100 limit)%nat ->
        answers 1 (cosmosReplies (ext e)) = true ->
        exists l e',
          getAllWaitlistSubmissions status limit e = (inr l, e')
          /\ Sorted lowestPositionFirst l
          /\ Forall (waitlistMatches status) l
          /\ (forall c, In c l <-> In c (WaitlistSubmissions (ext e)) /\ waitlistMatches status c)
          /\ List.length l
             = List.length (List.filter (whereClause (waitlistByStatus status))
                              (WaitlistSubmissions (ext e)))).
Proof.
  split; intros status limit e Hlimit Hanswers.
  - destruct (getAllContactSubmissions_eq status limit e Hlimit Hanswers) as [e' Hrun].
    eexists _, e'. split; [exact Hrun|]. apply contact_listing.
  - destruct (getAllWaitlistSubmissions_eq status limit e Hlimit Hanswers) as [e' Hrun].
    eexists _, e'. split; [exact Hrun|]. apply waitlist_listing.
Qed.

(** C10.  With three stored contact submissions and [limit = 2],
    [getAllContactSubmissions] returns all three; with five active waitlist
    records and [limit = 2], [getAllWaitlistSubmissions('active', 2)]
    returns all five: [limit] sets the page size of the iterator, and
    [fetchAll] drains every page. *)
Theorem listing_exceeds_limit :
  (exists l e',
     getAllContactSubmissions None (Some 2%nat)
       (sampleEnv (setContacts sampleContacts sampleBackend)) = (inr l, e')
     /\ List.length l = 3%nat)
  /\ (exists l e',
        getAllWaitlistSubmissions (Some StatusActive) (Some 2%nat)
          (sampleEnv (setWaitlist sampleWaitlist sampleBackend)) = (inr l, e')
        /\ List.length l = 5%nat).
Proof.
  split; eexists _, _; (split; [vm_compute; reflexivity|reflexivity]).
Qed.

(** ** The handlers *)

Lemma contactForm_valid body (e : Env Backend) :
  validateContactSubmission body = None ->
  contactForm (inr body) e
  = match contactFormPersist body (contactFormEntered e) with
    | (inr persisted, e1) => contactFormNotify (fst persisted) (snd persisted) e1
    | (inl error, e1) =>
        handlerCatch "Error processing contact form:"
          "An error occurred while processing your message. Please try again later."
          error e1
    end.
Proof.
  intros Hvalid.
  unfold contactForm. unfold bind at 1. unfold contextLog at 1, emit at 1.
  unfold tryCatch, bind at 1, requestJson. cbn [fst snd].
  unfold bind at 1. unfold contextLog at 1, emit at 1.
  rewrite Hvalid. unfold bind at 1.
  unfold contactFormEntered, logged. cbn [ext randoms randomsDrawn trace].
  rewrite <- app_assoc. cbn [app].
  destruct (contactFormPersist body _) as [[error|[this submission]] e1];
    [reflexivity|]. cbn [fst snd].
  rewrite contactFormNotify_eq.
  destruct (sendContactConfirmationEmail this submission e1) as [[cause|[]] e2];
    reflexivity.
Qed.

Lemma waitlist_valid body (e : Env Backend) :
  validateWaitlistSubmission body = None ->
  waitlist (inr body) e
  = match waitlistLookup body (waitlistEntered e) with
    | (inr (_, Some existing), e1) =>
        (inr (waitlistAlready existing),
         logged [EvLog LevelLog "Email already exists in waitlist"] e1)
    | (inr (this, None), e1) =>
        match waitlistPersist body e1 with
        | (inr submission, e2) => waitlistNotify this submission e2
        | (inl error, e2) =>
            handlerCatch "Error processing waitlist submission:"
              "An error occurred while processing your waitlist signup. Please try again later."
              error e2
        end
    | (inl error, e1) =>
        handlerCatch "Error processing waitlist submission:"
          "An error occurred while processing your waitlist signup. Please try again later."
          error e1
    end.
Proof.
  intros Hvalid.
  unfold waitlist. unfold bind at 1. unfold contextLog at 1, emit at 1.
  unfold tryCatch, bind at 1, requestJson. cbn [fst snd].
  unfold bind at 1. unfold contextLog at 1, emit at 1.
  rewrite Hvalid. unfold bind at 1.
  unfold waitlistEntered, logged. cbn [ext randoms randomsDrawn trace].
  rewrite <- app_assoc. cbn [app].
  destruct (waitlistLookup body _) as [[error|[this [existing|]]] e1];
    [reflexivity|reflexivity|]. cbn [fst snd].
  unfold bind at 1.
  destruct (waitlistPersist body e1) as [[error|submission] e2]; reflexivity.
Qed.

(** C8.  The [sendWaitlistConfirmationEmail] method of the class throws
    [Error('Method not implemented.')] on every input and touches neither
    the retry helper nor the gateway (the state is unchanged); so every new
    signup that reaches the confirmation step is answered with status 500
    and [success = false], although its record is in the store. *)
Theorem waitlist_confirmation_unimplemented :
  (forall this submission (e : Env Backend),
     sendWaitlistConfirmationEmail this submission e
     = (inl (newError "Method not implemented."), e))
  /\ (forall body (e : Env Backend) this submission e1 e2,
        validateWaitlistSubmission body = None ->
        waitlistLookup body (waitlistEntered e) = (inr (this, None), e1) ->
        waitlistPersist body e1 = (inr submission, e2) ->
        waitlist (inr body) e
        = (inr (waitlistDegraded submission),
           logged [EvLog LevelError
                     "Failed to send waitlist confirmation email after retries"] e2)
        /\ status (waitlistDegraded submission) = 500
        /\ success (waitlistDegraded submission) = false
        /\ data (waitlistDegraded submission) = Some (waitlistData submission)
        /\ In submission (WaitlistSubmissions (ext e2))).
Proof.
  split; [reflexivity|].
  intros body e this submission e1 e2 Hvalid Hlookup Hpersist.
  rewrite (waitlist_valid _ _ Hvalid), Hlookup, Hpersist, waitlistNotify_eq.
  repeat split.
  destruct (waitlistPersist_cases body e1) as (_ & new & _ & _ & Hstore).
  rewrite Hpersist in Hstore. cbn [fst snd] in Hstore.
  destruct Hstore as [-> _]. apply in_or_app. right. left. reflexivity.
Qed.

Lemma waitlist_confirmation_unimplemented_witness :
  fst (waitlist (inr waitlistBody) (sampleEnv sampleBackend))
  = inr (waitlistDegraded samRecord).
Proof.
  destruct waitlist_confirmation_unimplemented as [_ Hsignup].
  destruct (Hsignup waitlistBody (sampleEnv sampleBackend)
              (emailServiceOf sampleProcessEnv) samRecord
              (snd (waitlistLookup waitlistBody (waitlistEntered (sampleEnv sampleBackend))))
              (snd (waitlistPersist waitlistBody
                 (snd (waitlistLookup waitlistBody
                         (waitlistEntered (sampleEnv sampleBackend)))))))
    as (Hrun & _).
  - vm_compute; reflexivity.
  - vm_compute; reflexivity.
  - vm_compute; reflexivity.
  - exact (f_equal fst Hrun).
Defined.






(** C5.  [sendContactNotificationEmail] never throws: a failure of its
    retries is caught and only logged; a task dispatched without being
    awaited never reaches the caller; and once the confirmation was sent
    [contactForm] answers with its success response whatever happens to the
    notification. *)
Theorem notification_failure_swallowed :
  (forall this submission (e : Env Backend),
     fst (sendContactNotificationEmail this submission e) = inr tt)
  /\ (forall this submission (e : Env Backend) cause e2,
        retryWithBackoff this
          (sendOperation (contactNotificationMessage this submission))
          ("Contact notification email to " ++ this_adminEmail this)%string
          e = (inl cause, e2) ->
        sendContactNotificationEmail this submission e
        = (inr tt,
           logged [EvLog LevelError
                     "Contact notification failed after all retries. Logging for further investigation."]
             e2))
  /\ (forall A (task : M Backend A) onFulfilled onRejected (e : Env Backend),
        fst (fireAndForget task onFulfilled onRejected e) = inr tt)
  /\ (forall body (e : Env Backend) this submission e1 e2,
        validateContactSubmission body = None ->
        contactFormPersist body (contactFormEntered e) = (inr (this, submission), e1) ->
        sendContactConfirmationEmail this submission e1 = (inr tt, e2) ->
        fst (contactForm (inr body) e) = inr (contactSuccess submission)
        /\ ContactSubmissions (ext (snd (contactForm (inr body) e)))
           = ContactSubmissions (ext e2)).
Proof.
  split; [intros; apply sendContactNotificationEmail_returns|]. split.
  { intros this submission e cause e2 Hsend.
    unfold sendContactNotificationEmail, tryCatch, bind. rewrite Hsend. reflexivity. }
  split.
  { intros A task onFulfilled onRejected e. unfold fireAndForget.
    destruct (tryCatch _ _ e). reflexivity. }
  intros body e this submission e1 e2 Hvalid Hpersist Hconf.
  rewrite (contactForm_valid _ _ Hvalid), Hpersist. cbn [fst snd].
  rewrite contactFormNotify_eq, Hconf. cbn [fst snd].
  split; [reflexivity|].
  destruct (fireAndForget_notification_mailOnly this submission
              (logged [EvLog LevelLog "Confirmation email sent successfully"] e2))
    as (_ & Hsame & _).
  exact Hsame.
Qed.

Lemma notification_failure_swallowed_witness :
  fst (contactForm (inr contactBody) (sampleEnv notificationFails))
  = inr (contactSuccess janeRecord).
Proof.
  destruct notification_failure_swallowed as (_ & _ & _ & Hsuccess).
  destruct (Hsuccess contactBody (sampleEnv notificationFails)
              (emailServiceOf sampleProcessEnv) janeRecord
              (snd (contactFormPersist contactBody
                      (contactFormEntered (sampleEnv notificationFails))))
              (snd (sendContactConfirmationEmail (emailServiceOf sampleProcessEnv)
                      janeRecord
                      (snd (contactFormPersist contactBody
                              (contactFormEntered (sampleEnv notificationFails)))))))
    as (Hrun & _).
  - vm_compute; reflexivity.
  - vm_compute; reflexivity.
  - vm_compute; reflexivity.
  - exact Hrun.
Defined.
(** C6.  In every run of [contactForm] either no call goes to the gateway,
    or the calls are the create call, which persisted the record, followed
    by gateway calls only; in every run of [waitlist] no call goes to the
    gateway.  In both, the store keeps every record it had and, once the
    create call succeeded, the new record, whatever the e-mails did. *)
Theorem persistence_precedes_notification :
  (forall (request : HttpRequest) (e : Env Backend),
     exists response e',
       contactForm request e = (inr response, e')
       /\ ((ContactSubmissions (ext e') = ContactSubmissions (ext e)
            /\ exists new, calls (ext e') = calls (ext e) ++ new /\ noSend new = true)
           \/ (exists submission sends,
                 ContactSubmissions (ext e')
                 = ContactSubmissions (ext e) ++ [submission]
                 /\ calls (ext e')
                    = calls (ext e) ++ CallCreateContact submission :: sends
                 /\ forallb isSend sends = true)))
  /\ (forall (request : HttpRequest) (e : Env Backend),
        exists response e',
          waitlist request e = (inr response, e')
          /\ exists new,
               calls (ext e') = calls (ext e) ++ new
               /\ noSend new = true
               /\ (WaitlistSubmissions (ext e') = WaitlistSubmissions (ext e)
                   \/ exists submission,
                        WaitlistSubmissions (ext e')
                        = WaitlistSubmissions (ext e) ++ [submission]
                        /\ In (CallCreateWaitlist submission) new)).
Proof.
  split.
  - intros request e.
    destruct (contactForm_cases request e)
      as (response & e' & Hrun & _ & [(_ & Hsame & Hcalls) | Hgrown]).
    + exists response, e'. split; [exact Hrun|]. left. split; assumption.
    + destruct Hgrown as (submission & sends & _ & Hstore & Hcalls & Hsends).
      exists response, e'. split; [exact Hrun|]. right.
      exists submission, sends. repeat split; assumption.
  - intros request e.
    destruct (waitlist_cases request e)
      as (response & e' & Hrun & _ & new & Hcalls & Hnew & Hstore).
    exists response, e'. split; [exact Hrun|]. exists new.
    split; [exact Hcalls|]. split; [exact Hnew|].
    destruct Hstore as [Hsame | (submission & _ & Hgrown & Hin)];
      [left; exact Hsame|right; exists submission; split; assumption].
Qed.

(** ** Every run of the retry loop *)

Lemma retrySchedule_zero this name random drawn attempt :
  retrySchedule this name random drawn attempt 0 = [EvInvoke name attempt].
Proof. unfold retrySchedule. cbn. rewrite Nat.add_0_r. reflexivity. Qed.

Lemma retrySchedule_succ this name random drawn attempt k :
  retrySchedule this name random drawn attempt (Datatypes.S k)
  = EvInvoke name attempt :: EvSleep (delayMs this attempt (random drawn))
      :: retrySchedule this name random (Datatypes.S drawn) (Datatypes.S attempt) k.
Proof.
  unfold retrySchedule.
  rewrite <- cons_seq, <- seq_shift. cbn [flat_map].
  rewrite !Nat.add_0_r. cbn [app]. do 2 f_equal.
  rewrite flat_map_concat_map, List.map_map, <- flat_map_concat_map.
  f_equal.
  - apply flat_map_ext. intros j. rewrite !Nat.add_succ_r. reflexivity.
  - rewrite Nat.add_succ_r. reflexivity.
Qed.

Lemma retrySchedule_counts this name random drawn attempt k :
  invocations (retrySchedule this name random drawn attempt k) = Datatypes.S k
  /\ waits (retrySchedule this name random drawn attempt k) = k.
Proof.
  revert drawn attempt. induction k as [|k IH]; intros drawn attempt.
  - rewrite retrySchedule_zero. split; reflexivity.
  - rewrite retrySchedule_succ. destruct (IH (Datatypes.S drawn) (Datatypes.S attempt)) as [H1 H2].
    unfold invocations, waits in *. cbn. rewrite H1, H2. split; reflexivity.
Qed.

Section EveryRun.
Context {S T : Type}.
Variable this : EmailService.
Variable operation : Op S T.
Variable operationName : string.

Lemma outcomeOfInvocation_shift j (s : S) :
  outcomeOfInvocation operation (Datatypes.S j) s
  = outcomeOfInvocation operation j (snd (operation s)).
Proof. unfold outcomeOfInvocation, afterInvocations. rewrite Nat.iter_succ_r. reflexivity. Qed.

Lemma afterInvocations_shift j (s : S) :
  afterInvocations operation (Datatypes.S j) s
  = afterInvocations operation j (snd (operation s)).
Proof. unfold afterInvocations. rewrite Nat.iter_succ_r. reflexivity. Qed.

Lemma retryLoop_every_run remaining : forall attempt lastError (e : Env S),
  (attempt + remaining = MAX_RETRIES this)%nat ->
  exists k t,
    (k <= remaining)%nat
    /\ (forall j, (j < k)%nat ->
          decisive (outcomeOfInvocation operation j (ext e)) = false)
    /\ (decisive (outcomeOfInvocation operation k (ext e)) = true \/ k = remaining)
    /\ retryLoop this operation operationName (Datatypes.S remaining) attempt lastError e
       = (outcomeOfInvocation operation k (ext e),
          mkEnv (afterInvocations operation (Datatypes.S k) (ext e))
            (randoms e) (randomsDrawn e + k) (trace e ++ t))
    /\ schedule t
       = retrySchedule this operationName (randoms e) (randomsDrawn e) attempt k.
Proof.
  induction remaining as [|remaining IH]; intros attempt lastError e Hsum.
  - exists 0%nat.
    destruct (operation (ext e)) as [[error|result] s'] eqn:Hop.
    + destruct (isNonRetryableError error) eqn:Hclass.
      * rewrite (retryLoop_nonretryable _ _ _ _ _ _ _ _ _ Hop Hclass).
        eexists. split; [lia|]. split; [intros j Hj; lia|]. split; [right; reflexivity|].
        split.
        { unfold outcomeOfInvocation, afterInvocations, Nat.iter. cbn [nat_rect].
          rewrite Hop, Nat.add_0_r, <- app_assoc. reflexivity. }
        rewrite retrySchedule_zero. reflexivity.
      * rewrite (retryLoop_retryable _ _ _ _ _ _ _ _ _ Hop Hclass).
        assert (Hlt : (attempt <? MAX_RETRIES this)%nat = false)
          by (apply Nat.ltb_ge; lia).
        rewrite Hlt. cbn [retryLoop]. unfold throw.
        eexists. split; [lia|]. split; [intros j Hj; lia|]. split; [right; reflexivity|].
        split.
        { unfold outcomeOfInvocation, afterInvocations, Nat.iter. cbn [nat_rect].
          rewrite Hop, Nat.add_0_r. reflexivity. }
        rewrite retrySchedule_zero. reflexivity.
    + rewrite (retryLoop_success _ _ _ _ _ _ _ _ _ Hop).
      eexists. split; [lia|]. split; [intros j Hj; lia|]. split; [right; reflexivity|].
      split.
      { unfold outcomeOfInvocation, afterInvocations, Nat.iter. cbn [nat_rect].
        rewrite Hop, Nat.add_0_r. reflexivity. }
      rewrite retrySchedule_zero. destruct (1 <? attempt)%nat; reflexivity.
  - destruct (operation (ext e)) as [[error|result] s'] eqn:Hop.
    + destruct (isNonRetryableError error) eqn:Hclass.
      * exists 0%nat.
        rewrite (retryLoop_nonretryable _ _ _ _ _ _ _ _ _ Hop Hclass).
        eexists. split; [lia|]. split; [intros j Hj; lia|]. split.
        { left. unfold outcomeOfInvocation, afterInvocations, Nat.iter.
          cbn [nat_rect]. rewrite Hop. exact Hclass. }
        split.
        { unfold outcomeOfInvocation, afterInvocations, Nat.iter. cbn [nat_rect].
          rewrite Hop, Nat.add_0_r, <- app_assoc. reflexivity. }
        rewrite retrySchedule_zero. reflexivity.
      * rewrite (retryLoop_retryable _ _ _ _ _ _ _ _ _ Hop Hclass).
        assert (Hlt : (attempt <? MAX_RETRIES this)%nat = true)
          by (apply Nat.ltb_lt; lia).
        rewrite Hlt.
        edestruct (IH (Datatypes.S attempt) error) as (k & t & Hk & Hbefore & Hat & Hrun & Hsched);
          [| rewrite Hrun; clear Hrun ]; [lia|].
        cbn [ext randoms randomsDrawn trace] in *.
        exists (Datatypes.S k). eexists. split; [lia|]. split.
        { intros [|j] Hj.
          - unfold outcomeOfInvocation, afterInvocations, Nat.iter. cbn [nat_rect].
            rewrite Hop. exact Hclass.
          - rewrite outcomeOfInvocation_shift, Hop. apply Hbefore. lia. }
        split.
        { destruct Hat as [Hat|Hat]; [left|right; lia].
          rewrite outcomeOfInvocation_shift, Hop. exact Hat. }
        split.
        { rewrite outcomeOfInvocation_shift, (afterInvocations_shift (Datatypes.S k)), Hop.
          cbn [snd]. rewrite <- app_assoc. f_equal. f_equal. lia. }
        rewrite schedule_app, Hsched, retrySchedule_succ. reflexivity.
    + exists 0%nat. rewrite (retryLoop_success _ _ _ _ _ _ _ _ _ Hop).
      eexists. split; [lia|]. split; [intros j Hj; lia|]. split.
      { left. unfold outcomeOfInvocation, afterInvocations, Nat.iter.
        cbn [nat_rect]. rewrite Hop. reflexivity. }
      split.
      { unfold outcomeOfInvocation, afterInvocations, Nat.iter. cbn [nat_rect].
        rewrite Hop, Nat.add_0_r. reflexivity. }
      rewrite retrySchedule_zero. destruct (1 <? attempt)%nat; reflexivity.
Qed.
End EveryRun.

Lemma totalSleep_app t1 t2 : totalSleep (t1 ++ t2) = totalSleep t1 + totalSleep t2.
Proof.
  induction t1 as [|ev t1 IH]; [reflexivity|].
  destruct ev; cbn; rewrite IH; lia.
Qed.

Lemma totalSleep_schedule t : totalSleep t = totalSleep (schedule t).
Proof.
  unfold schedule. induction t as [|ev t IH]; [reflexivity|].
  destruct ev; cbn; rewrite IH; reflexivity.
Qed.

Lemma delayMs_first_two (pe : ProcessEnv) (random : Q) :
  (0 <= random)%Q -> (random < 1)%Q ->
  1500 <= delayMs (emailServiceOf pe) 1 random <= 2500
  /\ 3000 <= delayMs (emailServiceOf pe) 2 random <= 5000.
Proof.
  intros H0 H1. unfold delayMs, jitter. split; apply mathRound_between.
  - assert (Hv : (cappedDelay (emailServiceOf pe) 1 == 2000)%Q) by reflexivity.
    rewrite Hv. cbn [JITTER_PERCENTAGE emailServiceOf].
    change (inject_Z 1500) with 1500%Q. lra.
  - assert (Hv : (cappedDelay (emailServiceOf pe) 1 == 2000)%Q) by reflexivity.
    rewrite Hv. cbn [JITTER_PERCENTAGE emailServiceOf].
    change (inject_Z 2500) with 2500%Q. lra.
  - assert (Hv : (cappedDelay (emailServiceOf pe) 2 == 4000)%Q) by reflexivity.
    rewrite Hv. cbn [JITTER_PERCENTAGE emailServiceOf].
    change (inject_Z 3000) with 3000%Q. lra.
  - assert (Hv : (cappedDelay (emailServiceOf pe) 2 == 4000)%Q) by reflexivity.
    rewrite Hv. cbn [JITTER_PERCENTAGE emailServiceOf].
    change (inject_Z 5000) with 5000%Q. lra.
Qed.

(** X5.  Every run of [retryWithBackoff] with [MAX_RETRIES >= 1], whatever
    the operation does.  There is an attempt [k + 1 <= MAX_RETRIES] before
    which every attempt failed with a retryable error and which either
    succeeds or fails with a non-retryable error, or else is the last one
    of the budget.  The result is the outcome of that attempt, returned or
    thrown; the operation was invoked [k + 1] times, with a backoff sleep
    after each of the first [k] attempts and none after the last, and one
    random number was drawn per sleep. *)
Theorem retry_every_run {S T} (this : EmailService) (operation : Op S T)
    (operationName : string) (e : Env S) :
  (1 <= MAX_RETRIES this)%nat ->
  exists k t,
    (k < MAX_RETRIES this)%nat
    /\ (forall j, (j < k)%nat ->
          decisive (outcomeOfInvocation operation j (ext e)) = false)
    /\ (decisive (outcomeOfInvocation operation k (ext e)) = true
        \/ Datatypes.S k = MAX_RETRIES this)
    /\ retryWithBackoff this operation operationName e
       = (outcomeOfInvocation operation k (ext e),
          mkEnv (afterInvocations operation (Datatypes.S k) (ext e))
            (randoms e) (randomsDrawn e + k) (trace e ++ t))
    /\ schedule t = retrySchedule this operationName (randoms e) (randomsDrawn e) 1 k
    /\ invocations t = Datatypes.S k
    /\ waits t = k.
Proof.
  intros Hmax. unfold retryWithBackoff.
  destruct (MAX_RETRIES this) as [|remaining] eqn:Hn; [lia|].
  destruct (retryLoop_every_run this operation operationName remaining 1%nat
              JUndefined e) as (k & t & Hk & Hbefore & Hat & Hrun & Hsched); [lia|].
  exists k, t. split; [lia|]. split; [exact Hbefore|].
  split; [destruct Hat; [left; assumption|right; lia]|].
  split; [exact Hrun|]. split; [exact Hsched|].
  rewrite invocations_schedule, waits_schedule, Hsched.
  apply retrySchedule_counts.
Qed.

Lemma retry_every_run_witness :
  exists k t,
    (k < 3)%nat
    /\ fst (retryWithBackoff (emailServiceOf sampleProcessEnv) failsOnce "send" counterEnv)
       = outcomeOfInvocation failsOnce k 0%nat
    /\ invocations t = Datatypes.S k.
Proof.
  destruct (retry_every_run (emailServiceOf sampleProcessEnv) failsOnce "send" counterEnv)
    as (k & t & Hk & _ & _ & Hrun & _ & Hinv & _).
  - vm_compute. lia.
  - exists k, t. split; [exact Hk|]. split; [exact (f_equal fst Hrun)|exact Hinv].
Defined.

(** X6.  If the first [k] invocations fail with retryable errors and
    invocation [k + 1 <= MAX_RETRIES] succeeds or fails with a non-retryable
    error, [retryWithBackoff] returns (or throws) the outcome of that
    invocation after [k + 1] invocations and [k] sleeps: a transient failure
    is recovered from, and nothing is retried after a success. *)
Theorem retry_first_decisive {S T} (this : EmailService) (operation : Op S T)
    (operationName : string) (e : Env S) (k : nat) :
  (k < MAX_RETRIES this)%nat ->
  (forall j, (j < k)%nat ->
     decisive (outcomeOfInvocation operation j (ext e)) = false) ->
  decisive (outcomeOfInvocation operation k (ext e)) = true ->
  exists t,
    retryWithBackoff this operation operationName e
    = (outcomeOfInvocation operation k (ext e),
       mkEnv (afterInvocations operation (Datatypes.S k) (ext e))
         (randoms e) (randomsDrawn e + k) (trace e ++ t))
    /\ schedule t = retrySchedule this operationName (randoms e) (randomsDrawn e) 1 k
    /\ invocations t = Datatypes.S k
    /\ waits t = k.
Proof.
  intros Hk Hbefore Hat. unfold retryWithBackoff.
  destruct (MAX_RETRIES this) as [|remaining] eqn:Hn; [lia|].
  destruct (retryLoop_every_run this operation operationName remaining 1%nat
              JUndefined e) as (k' & t & Hk' & Hbefore' & Hat' & Hrun & Hsched); [lia|].
  assert (k' = k) as ->.
  { destruct (Nat.lt_trichotomy k' k) as [Hlt|[Heq|Hgt]]; [|exact Heq|].
    - destruct Hat' as [Hat'|Hat']; [|lia].
      rewrite (Hbefore k' Hlt) in Hat'. discriminate.
    - rewrite (Hbefore' k Hgt) in Hat. discriminate. }
  exists t. split; [exact Hrun|]. split; [exact Hsched|].
  rewrite invocations_schedule, waits_schedule, Hsched.
  apply retrySchedule_counts.
Qed.

Lemma retry_first_decisive_witness :
  exists t,
    fst (retryWithBackoff (emailServiceOf sampleProcessEnv) failsOnce "send" counterEnv)
    = inr "sent"
    /\ invocations t = 2%nat /\ waits t = 1%nat.
Proof.
  destruct (retry_first_decisive (emailServiceOf sampleProcessEnv) failsOnce "send"
              counterEnv 1) as (t & Hrun & _ & Hinv & Hwait).
  - vm_compute. lia.
  - intros j Hj. assert (j = 0%nat) as -> by lia. vm_compute. reflexivity.
  - vm_compute. reflexivity.
  - exists t. split; [exact (f_equal fst Hrun)|]. split; [exact Hinv|exact Hwait].
Defined.

(** X7.  With the constants of the class (3 attempts, 1000 ms, factor 2,
    jitter 25%) and [Math.random] in [0, 1), one call of [retryWithBackoff]
    invokes the operation one to three times and sleeps at most 7500 ms in
    total: between 1500 and 2500 ms when it stops after two attempts, at
    least 4500 ms when it makes all three. *)
Theorem retry_total_wait {S T} (pe : ProcessEnv) (operation : Op S T)
    (operationName : string) (e : Env S) :
  (forall n, (0 <= randoms e n)%Q /\ (randoms e n < 1)%Q) ->
  exists t,
    trace (snd (retryWithBackoff (emailServiceOf pe) operation operationName e))
    = trace e ++ t
    /\ (1 <= invocations t <= 3)%nat
    /\ 0 <= totalSleep t <= 7500
    /\ (invocations t = 2%nat -> 1500 <= totalSleep t <= 2500)
    /\ (invocations t = 3%nat -> 4500 <= totalSleep t).
Proof.
  intros Hrandom. unfold retryWithBackoff.
  destruct (retryLoop_every_run (emailServiceOf pe) operation operationName 2 1%nat
              JUndefined e) as (k & t & Hk & _ & _ & Hrun & Hsched); [reflexivity|].
  change (MAX_RETRIES (emailServiceOf pe)) with 3%nat. rewrite Hrun.
  exists t. split; [reflexivity|].
  rewrite invocations_schedule, totalSleep_schedule, Hsched.
  destruct (retrySchedule_counts (emailServiceOf pe) operationName (randoms e)
              (randomsDrawn e) 1 k) as [-> _].
  destruct (Hrandom (randomsDrawn e)) as [Ha0 Ha1].
  destruct (Hrandom (Datatypes.S (randomsDrawn e))) as [Hb0 Hb1].
  destruct (delayMs_first_two pe _ Ha0 Ha1) as [Hd1 _].
  destruct (delayMs_first_two pe _ Hb0 Hb1) as [_ Hd2].
  destruct k as [|[|[|k]]]; [| | |lia];
    rewrite ?retrySchedule_succ, retrySchedule_zero; cbn [totalSleep];
    repeat split; try lia.
Qed.

Lemma retry_total_wait_witness :
  exists t,
    trace (snd (retryWithBackoff (emailServiceOf sampleProcessEnv) failsOnce "send"
                  counterEnv)) = [] ++ t
    /\ totalSleep t <= 7500.
Proof.
  destruct (retry_total_wait sampleProcessEnv failsOnce "send" counterEnv)
    as (t & Htrace & _ & Htotal & _).
  - intros n. cbn. split; [unfold Qle|unfold Qlt]; cbn; lia.
  - exists t. split; [exact Htrace|lia].
Defined.

(** ** The handlers, path by path *)

#[local] Arguments includes : simpl never.

Lemma handlerCatch_eq {D} logText genericMessage error (e : Env Backend) :
  handlerCatch (D := D) logText genericMessage error e
  = (inr (failureResponse genericMessage (detailedErrors (ext e)) error),
     logged [EvLog LevelError logText] e).
Proof.
  unfold handlerCatch, failureResponse, bind, contextError, emit, showDetailedErrors,
    perform, ret, logged, detailedErrors.
  cbn [ext randoms randomsDrawn trace].
  destruct (instanceofError error && includes "Resource Not Found" (messageOf error));
    reflexivity.
Qed.

Lemma contactForm_invalid body msg (e : Env Backend) :
  validateContactSubmission body = Some msg ->
  contactForm (inr body) e
  = (inr (validationResponse msg),
     logged [EvLog LevelLog "Contact form submission received";
             EvLog LevelLog "Contact from";
             EvLog LevelWarn "Validation failed"] e).
Proof.
  intros Hinvalid.
  unfold contactForm, bind, tryCatch, contextLog, contextWarn, emit, requestJson, ret.
  cbn [fst snd]. rewrite Hinvalid. unfold logged. cbn.
  rewrite <- !app_assoc. reflexivity.
Qed.

Lemma waitlist_invalid body msg (e : Env Backend) :
  validateWaitlistSubmission body = Some msg ->
  waitlist (inr body) e
  = (inr (validationResponse msg),
     logged [EvLog LevelLog "Waitlist submission received";
             EvLog LevelLog "Waitlist signup from";
             EvLog LevelWarn "Validation failed"] e).
Proof.
  intros Hinvalid.
  unfold waitlist, bind, tryCatch, contextLog, contextWarn, emit, requestJson, ret.
  cbn [fst snd]. rewrite Hinvalid. unfold logged. cbn.
  rewrite <- !app_assoc. reflexivity.
Qed.

Lemma contactForm_unparsed error (e : Env Backend) :
  contactForm (inl error) e
  = (inr (failureResponse contactGenericMessage (detailedErrors (ext e)) error),
     logged [EvLog LevelLog "Contact form submission received";
             EvLog LevelError "Error processing contact form:"] e).
Proof.
  unfold contactForm. unfold bind at 1. unfold contextLog at 1, emit at 1.
  unfold tryCatch, bind at 1, requestJson. cbn [fst snd].
  rewrite handlerCatch_eq. unfold logged. cbn. rewrite <- app_assoc. reflexivity.
Qed.

Lemma waitlist_unparsed error (e : Env Backend) :
  waitlist (inl error) e
  = (inr (failureResponse waitlistGenericMessage (detailedErrors (ext e)) error),
     logged [EvLog LevelLog "Waitlist submission received";
             EvLog LevelError "Error processing waitlist submission:"] e).
Proof.
  unfold waitlist. unfold bind at 1. unfold contextLog at 1, emit at 1.
  unfold tryCatch, bind at 1, requestJson. cbn [fst snd].
  rewrite handlerCatch_eq. unfold logged. cbn. rewrite <- app_assoc. reflexivity.
Qed.















Lemma answers_skip n m script :
  answers (n + m) script = true ->
  answers n script = true /\ answers m (skipn n script) = true.
Proof.
  unfold answers. revert script. induction n as [|n IH]; intros script; cbn.
  - auto.
  - destruct script as [|r script]; cbn.
    + intros _. destruct m; split; reflexivity.
    + rewrite andb_true_iff. intros [Hr H]. destruct (IH _ H) as [H1 H2].
      rewrite Hr, H1. split; [reflexivity|exact H2].
Qed.






Lemma createWaitlistSubmission_answered submission (e : Env Backend) :
  answers 2 (cosmosReplies (ext e)) = true ->
  let created :=
    WaitlistSubmission.Build
      ("waitlist-" ++ uuids (ext e) (uuidsDrawn (ext e)))%string
      (NewWaitlist.email submission) (NewWaitlist.name submission)
      (NewWaitlist.status submission)
      (Z.of_nat (List.length (activeRecords (WaitlistSubmissions (ext e)))) + 1)
      (NewWaitlist.submittedAt submission) (NewWaitlist.email submission) in
  createWaitlistSubmission submission e
  = (inr created,
     mkEnv
       (setWaitlist (WaitlistSubmissions (ext e) ++ [created])
          (setCosmosReplies (skipn 2 (cosmosReplies (ext e)))
             (record (CallCreateWaitlist created)
                (record (CallQuery "WaitlistSubmissions" (query activeCount))
                   (setUuidsDrawn (Datatypes.S (uuidsDrawn (ext e))) (ext e))))))
       (randoms e) (randomsDrawn e) (trace e)).
Proof.
  intros Hanswers created. subst created.
  destruct e as [b random drawn t].
  destruct b as [pe contacts wl replies mail ids idsDrawn clock log].
  unfold createWaitlistSubmission, getWaitlistCount, logAndRethrow, bind, tryCatch,
    perform, ret, fetchAll, itemsCreateWaitlist, cosmosCall, randomUUID.
  unfold answers in Hanswers. cbn in Hanswers |- *.
  destruct replies as [|[| |] [|[| |] replies]]; cbn in Hanswers |- *;
    try discriminate; reflexivity.
Qed.







(** X13.  Two consecutive calls of [createWaitlistSubmission] that the
    store answers: both records are appended, in order; the second position
    is the first plus one when the first record is active and equal to it
    otherwise; positions start at 1. *)
Theorem waitlist_positions_follow (first second : NewWaitlist.t) (e : Env Backend) :
  answers 4 (cosmosReplies (ext e)) = true ->
  exists r1 e1 r2 e2,
    createWaitlistSubmission first e = (inr r1, e1)
    /\ createWaitlistSubmission second e1 = (inr r2, e2)
    /\ WaitlistSubmissions (ext e2) = WaitlistSubmissions (ext e) ++ [r1; r2]
    /\ WaitlistSubmission.position r2
       = WaitlistSubmission.position r1
         + (if bool_decide (NewWaitlist.status first = StatusActive) then 1 else 0)
    /\ WaitlistSubmission.position r1 <= WaitlistSubmission.position r2
    /\ 1 <= WaitlistSubmission.position r1.
Proof.
  intros Hanswers. apply (answers_skip 2 2) in Hanswers as [Ha Hb].
  rewrite (createWaitlistSubmission_answered first e Ha).
  destruct e as [b random drawn t].
  destruct b as [pe contacts wl replies mail ids idsDrawn clock log].
  cbn [ext cosmosReplies] in *.
  eexists _, _, _, _. split; [reflexivity|].
  rewrite createWaitlistSubmission_answered by exact Hb.
  split; [reflexivity|].
  cbn [ext WaitlistSubmissions setWaitlist setCosmosReplies record setUuidsDrawn
       WaitlistSubmission.position].
  split; [rewrite <- app_assoc; reflexivity|].
  unfold activeRecords. rewrite List.filter_app, length_app. cbn.
  destruct (bool_decide (NewWaitlist.status first = StatusActive)); cbn; lia.
Qed.

Lemma waitlist_positions_follow_witness :
  exists r1 e1 r2 e2,
    createWaitlistSubmission (signup "a@example.org") (sampleEnv sampleBackend)
    = (inr r1, e1)
    /\ createWaitlistSubmission (signup "b@example.org") e1 = (inr r2, e2)
    /\ WaitlistSubmission.position r2 = WaitlistSubmission.position r1 + 1.
Proof.
  destruct (waitlist_positions_follow (signup "a@example.org") (signup "b@example.org")
              (sampleEnv sampleBackend))
    as (r1 & e1 & r2 & e2 & Hfirst & Hsecond & _ & Hpos & _).
  - reflexivity.
  - exists r1, e1, r2, e2. split; [exact Hfirst|]. split; [exact Hsecond|exact Hpos].
Defined.



(** ** The point read and the admin dashboard *)













Lemma queried_replies container text b :
  cosmosReplies (queried container text b) = skipn 1 (cosmosReplies b).
Proof. reflexivity. Qed.

Lemma queried_stores container text b :
  ContactSubmissions (queried container text b) = ContactSubmissions b
  /\ WaitlistSubmissions (queried container text b) = WaitlistSubmissions b
  /\ calls (queried container text b) = calls b ++ [CallQuery container text].
Proof. repeat split. Qed.





Lemma isCosmosError_404 (error : JsValue) :
  isCosmosError error && isNumber 404 (getProp "code" error) = true <->
  exists isErr props n,
    error = JObject isErr props /\ props !! "code" = Some (JNumber n) /\ (n == 404)%Q.
Proof.
  unfold isCosmosError. split.
  - destruct error as [| | | | |isErr props]; cbn; try discriminate.
    destruct (props !! "code") as [v|] eqn:Hlookup; cbn; [|discriminate].
    destruct v as [| | |n| |]; cbn; try discriminate.
    rewrite Qeq_bool_iff. intros Hn. exists isErr, props, n. auto.
  - intros (isErr & props & n & -> & Hlookup & Hn). cbn. rewrite Hlookup. cbn.
    apply Qeq_bool_iff. exact Hn.
Qed.

(** X18.  [getContactSubmission(id, email)].  A rejection of the read is
    turned into [null] exactly when the thrown value is an object with a
    numeric [code] equal to 404 (it need not be an [Error]); any other
    rejection is rethrown as it is.  When the store answers, the result is
    the stored document with that id in the partition [email], or [null] if
    there is none.  The store is only read. *)
Theorem point_read_not_found (id email : string) (e : Env Backend) :
  let text := ("item(" ++ id ++ ", " ++ email ++ ").read()")%string in
  let e1 := mkEnv (queried "ContactSubmissions" text (ext e))
              (randoms e) (randomsDrawn e) (trace e) in
  (forall reason rest,
     cosmosReplies (ext e) = Rejected reason :: rest ->
     getContactSubmission id email e
     = (if isCosmosError reason && isNumber 404 (getProp "code" reason)
        then inr None else inl reason, e1))
  /\ (forall reason,
        isCosmosError reason && isNumber 404 (getProp "code" reason) = true <->
        exists isErr props n,
          reason = JObject isErr props /\ props !! "code" = Some (JNumber n)
          /\ (n == 404)%Q)
  /\ (answers 1 (cosmosReplies (ext e)) = true ->
      getContactSubmission id email e
      = (inr (itemAt id email (ContactSubmissions (ext e))), e1))
  /\ (forall found,
        itemAt id email (ContactSubmissions (ext e)) = Some found ->
        In found (ContactSubmissions (ext e))
        /\ ContactSubmission.id found = id
        /\ ContactSubmission._partitionKey found = email).
Proof.
  intros text e1. subst text e1.
  destruct e as [b random drawn t].
  destruct b as [pe contacts wl replies mail ids idsDrawn clock log].
  cbn [ext cosmosReplies ContactSubmissions randoms randomsDrawn trace].
  split.
  { intros reason rest ->.
    unfold getContactSubmission, tryCatch, bind, perform, itemRead, cosmosCall, ret, throw.
    cbn. destruct (isCosmosError reason && isNumber 404 (getProp "code" reason));
      reflexivity. }
  split; [exact isCosmosError_404|]. split.
  { intros Hanswers.
    unfold getContactSubmission, tryCatch, bind, perform, itemRead, cosmosCall, ret.
    unfold answers in Hanswers.
    destruct replies as [|[| |] rest]; cbn in Hanswers |- *; try discriminate;
      reflexivity. }
  intros found Hfound. unfold itemAt in Hfound.
  apply find_some in Hfound as [Hin Hmatch].
  apply andb_true_iff in Hmatch as [Hid Hpk].
  apply String.eqb_eq in Hid, Hpk. auto.
Qed.

Lemma point_read_not_found_witness :
  fst (getContactSubmission "contact-a" "jane@x.com" (sampleEnv storeMisses)) = inr None.
Proof.
  destruct (point_read_not_found "contact-a" "jane@x.com" (sampleEnv storeMisses))
    as [Hrejected _].
  rewrite (Hrejected notFound [] eq_refl). vm_compute. reflexivity.
Defined.

(** ** Writing and reading back; the handlers as a whole *)

(** X19.  [createContactSubmission].  The document handed to the store is
    the submission with id ['contact-' + uuid] and its e-mail as partition
    key.  If the store answers, that document is returned and is the one
    record added; if the store rejects, the same error is rethrown after one
    error log line; if it answers without a resource,
    [Error('Failed to create contact submission in database')] is thrown.
    In both failure cases nothing is stored. *)
Theorem contact_create_outcomes (submission : NewContact.t) (e : Env Backend) :
  let document := contactDocument submission (ext e) in
  let b1 := setCosmosReplies (skipn 1 (cosmosReplies (ext e)))
              (record (CallCreateContact document)
                 (setUuidsDrawn (Datatypes.S (uuidsDrawn (ext e))) (ext e))) in
  let failed := mkEnv b1 (randoms e) (randomsDrawn e)
                  (trace e ++ [EvLog LevelError "Error creating contact submission"]) in
  (answers 1 (cosmosReplies (ext e)) = true ->
   createContactSubmission submission e
   = (inr document,
      mkEnv (setContacts (ContactSubmissions (ext e) ++ [document]) b1)
        (randoms e) (randomsDrawn e) (trace e)))
  /\ (forall reason rest,
        cosmosReplies (ext e) = Rejected reason :: rest ->
        createContactSubmission submission e = (inl reason, failed))
  /\ (forall rest,
        cosmosReplies (ext e) = NoResource :: rest ->
        createContactSubmission submission e
        = (inl (newError "Failed to create contact submission in database"), failed))
  /\ ContactSubmissions b1 = ContactSubmissions (ext e)
  /\ WaitlistSubmissions b1 = WaitlistSubmissions (ext e).
Proof.
  intros document b1 failed. subst document b1 failed.
  destruct e as [b random drawn t].
  destruct b as [pe contacts wl replies mail ids idsDrawn clock log].
  unfold createContactSubmission, logAndRethrow, bind, tryCatch, perform,
    itemsCreateContact, cosmosCall, randomUUID, consoleError, emit, ret, throw, answers.
  cbn. split.
  { destruct replies as [|[| |] rest]; cbn; try discriminate; reflexivity. }
  split; [intros reason rest ->; reflexivity|].
  split; [intros rest ->; reflexivity|].
  split; reflexivity.
Qed.

Lemma contact_create_outcomes_witness :
  fst (createContactSubmission janeSubmission (sampleEnv sampleBackend))
  = inr (contactDocument janeSubmission sampleBackend).
Proof.
  destruct (contact_create_outcomes janeSubmission (sampleEnv sampleBackend))
    as [Hanswered _].
  exact (f_equal fst (Hanswered eq_refl)).
Defined.

Lemma createContactSubmission_answered (submission : NewContact.t) (e : Env Backend) :
  answers 1 (cosmosReplies (ext e)) = true ->
  createContactSubmission submission e
  = (inr (contactDocument submission (ext e)),
     mkEnv (setContacts (ContactSubmissions (ext e) ++ [contactDocument submission (ext e)])
              (setCosmosReplies (skipn 1 (cosmosReplies (ext e)))
                 (record (CallCreateContact (contactDocument submission (ext e)))
                    (setUuidsDrawn (Datatypes.S (uuidsDrawn (ext e))) (ext e)))))
       (randoms e) (randomsDrawn e) (trace e)).
Proof.
  destruct e as [b random drawn t].
  destruct b as [pe contacts wl replies mail ids idsDrawn clock log].
  unfold createContactSubmission, logAndRethrow, bind, tryCatch, perform,
    itemsCreateContact, cosmosCall, randomUUID, consoleError, emit, ret, throw, answers.
  cbn. destruct replies as [|[| |] rest]; cbn; try discriminate; reflexivity.
Qed.

Lemma getContactSubmission_answered id email (e : Env Backend) :
  answers 1 (cosmosReplies (ext e)) = true ->
  getContactSubmission id email e
  = (inr (itemAt id email (ContactSubmissions (ext e))),
     mkEnv (queried "ContactSubmissions"
              ("item(" ++ id ++ ", " ++ email ++ ").read()")%string (ext e))
       (randoms e) (randomsDrawn e) (trace e)).
Proof.
  destruct e as [b random drawn t].
  destruct b as [pe contacts wl replies mail ids idsDrawn clock log].
  unfold getContactSubmission, tryCatch, bind, perform, itemRead, cosmosCall, ret, answers.
  destruct replies as [|[| |] rest]; cbn; try discriminate; reflexivity.
Qed.

Lemma find_app_none {A} (p : A -> bool) (l l' : list A) :
  List.find p l = None -> List.find p (l ++ l') = List.find p l'.
Proof.
  induction l as [|y l IH]; cbn; [reflexivity|].
  destruct (p y); [discriminate|exact IH].
Qed.

Lemma itemAt_app id pk l x :
  itemAt id pk l = None ->
  ContactSubmission.id x = id -> ContactSubmission._partitionKey x = pk ->
  itemAt id pk (l ++ [x]) = Some x.
Proof.
  unfold itemAt. intros Hnone Hid Hpk. induction l as [|y l IH]; cbn in *.
  - rewrite Hid, Hpk, !String.eqb_refl. reflexivity.
  - destruct ((ContactSubmission.id y =? id)%string
              && (ContactSubmission._partitionKey y =? pk)%string); [discriminate|].
    apply IH, Hnone.
Qed.

(** X20.  Round trip through the store: after a successful
    [createContactSubmission], [getContactSubmission] with the returned id
    and e-mail gives back the created document (no older document having
    that id and partition key), and with the same id under another e-mail
    (none stored there) it gives [null]: the partition key is part of a
    document's address. *)
Theorem contact_create_then_read (submission : NewContact.t) (e : Env Backend) :
  answers 2 (cosmosReplies (ext e)) = true ->
  let created := contactDocument submission (ext e) in
  itemAt (ContactSubmission.id created) (NewContact.email submission)
    (ContactSubmissions (ext e)) = None ->
  exists e1 e2,
    createContactSubmission submission e = (inr created, e1)
    /\ getContactSubmission (ContactSubmission.id created)
         (ContactSubmission.email created) e1 = (inr (Some created), e2)
    /\ ContactSubmissions (ext e2) = ContactSubmissions (ext e) ++ [created]
    /\ (forall other,
          other <> ContactSubmission.email created ->
          itemAt (ContactSubmission.id created) other (ContactSubmissions (ext e)) = None ->
          fst (getContactSubmission (ContactSubmission.id created) other e1) = inr None).
Proof.
  intros Hanswers created Hfresh.
  apply (answers_skip 1 1) in Hanswers as [A1 A2].
  rewrite (createContactSubmission_answered submission e A1). fold created.
  destruct e as [b random drawn t].
  destruct b as [pe contacts wl replies mail ids idsDrawn clock log].
  cbn [ext cosmosReplies ContactSubmissions] in *.
  eexists _, _. split; [reflexivity|].
  rewrite getContactSubmission_answered by exact A2.
  cbn [ext ContactSubmissions setContacts].
  change (ContactSubmission.email created) with (NewContact.email submission).
  rewrite (itemAt_app _ _ contacts created Hfresh eq_refl eq_refl).
  split; [reflexivity|]. split; [reflexivity|].
  intros other Hother Hnone.
  change (ContactSubmission.email created) with (NewContact.email submission) in Hother.
  rewrite getContactSubmission_answered by exact A2.
  cbn [fst ext ContactSubmissions setContacts].
  f_equal. unfold itemAt in *. rewrite (find_app_none _ _ _ Hnone). cbn.
  destruct (String.eqb_spec (NewContact.email submission) other) as [Heq|Hneq].
  - exfalso. apply Hother. symmetry. exact Heq.
  - rewrite andb_false_r. reflexivity.
Qed.

Lemma contact_create_then_read_witness :
  exists e1 e2,
    createContactSubmission janeSubmission (sampleEnv sampleBackend)
    = (inr (contactDocument janeSubmission sampleBackend), e1)
    /\ getContactSubmission "contact-A" "jane@x.com" e1
       = (inr (Some (contactDocument janeSubmission sampleBackend)), e2).
Proof.
  destruct (contact_create_then_read janeSubmission (sampleEnv sampleBackend))
    as (e1 & e2 & Hcreate & Hread & _).
  - reflexivity.
  - reflexivity.
  - exists e1, e2. split; [exact Hcreate|exact Hread].
Defined.

Lemma failureResponse_facts {D} genericMessage detailed error :
  (status (failureResponse (D := D) genericMessage detailed error) = 500
   \/ status (failureResponse (D := D) genericMessage detailed error) = 503)
  /\ success (failureResponse (D := D) genericMessage detailed error) = false
  /\ data (failureResponse (D := D) genericMessage detailed error) = None.
Proof.
  unfold failureResponse.
  destruct (instanceofError error && includes "Resource Not Found" (messageOf error));
    cbn; auto.
Qed.

Lemma waitlistLookup_found body (e : Env Backend) this existing e1 :
  waitlistLookup body e = (inr (this, Some existing), e1) ->
  In existing (WaitlistSubmissions (ext e))
  /\ WaitlistSubmission.email existing = normalizedEmail body
  /\ WaitlistSubmissions (ext e1) = WaitlistSubmissions (ext e).
Proof.
  unfold waitlistLookup, newDatabaseService, newEmailService, bind, ret.
  destruct (unset (COSMOS_CONNECTION_STRING (processEnv (ext e)))); [discriminate|].
  destruct (unset (COMMUNICATION_SERVICES_CONNECTION_STRING (processEnv (ext e))));
    [discriminate|].
  rewrite getWaitlistSubmissionByEmail_eq.
  destruct (fst (nextReply _)); [|discriminate|];
    intros [= _ Hhead <-];
    (destruct (List.filter _ _) as [|first rest] eqn:Hfilter; [discriminate|]);
    injection Hhead as ->;
    match type of Hfilter with
    | ?lhs = _ =>
        assert (Hin : In existing lhs) by (rewrite Hfilter; left; reflexivity)
    end;
    apply filter_In in Hin as [Hin Hmatch];
    apply String.eqb_eq in Hmatch; repeat split; assumption.
Qed.

(** X21.  [contactForm] and [waitlist] never throw: for every request and
    world whose errors carry string messages, each returns a response with
    status 200, 400, 500 or 503, and [success] is true exactly for status
    200.  A success of [contactForm] carries a record that is in the store
    afterwards.  A success of [waitlist] is always the 'already on our
    waitlist' response for a record stored beforehand, the store being
    unchanged: a first signup is never answered with success. *)
Theorem handlers_always_respond (request : HttpRequest) (e : Env Backend) :
  plainErrors request (ext e) ->
  (exists response e',
     contactForm request e = (inr response, e')
     /\ knownStatus (status response)
     /\ (success response = true <-> status response = 200)
     /\ (success response = true ->
         exists submission,
           response = contactSuccess submission
           /\ In submission (ContactSubmissions (ext e'))))
  /\ (exists response e',
        waitlist request e = (inr response, e')
        /\ knownStatus (status response)
        /\ (success response = true <-> status response = 200)
        /\ (success response = true ->
            exists existing,
              response = waitlistAlready existing
              /\ In existing (WaitlistSubmissions (ext e))
              /\ WaitlistSubmissions (ext e') = WaitlistSubmissions (ext e))).
Proof.
  intros _.
  assert (Hfail : forall D genericMessage detailed error,
    knownStatus (status (failureResponse (D := D) genericMessage detailed error))
    /\ (success (failureResponse (D := D) genericMessage detailed error) = true
        <-> status (failureResponse (D := D) genericMessage detailed error) = 200)
    /\ success (failureResponse (D := D) genericMessage detailed error) = false).
  { intros D g d err.
    destruct (failureResponse_facts (D := D) g d err) as (Hs & Hf & _).
    rewrite Hf. unfold knownStatus.
    split; [destruct Hs as [-> | ->]; auto|].
    split; [split; [discriminate|destruct Hs as [-> | ->]; discriminate]|reflexivity]. }
  split.
  - destruct request as [error|body].
    { rewrite contactForm_unparsed. eexists _, _. split; [reflexivity|].
      match goal with
      | |- knownStatus (status (@failureResponse ?D ?g ?d ?err)) /\ _ =>
          destruct (Hfail D g d err) as (H1 & H2 & H3)
      end.
      split; [exact H1|]. split; [exact H2|]. rewrite H3. discriminate. }
    destruct (validateContactSubmission body) as [msg|] eqn:Hvalid.
    { rewrite (contactForm_invalid _ _ _ Hvalid). eexists _, _. split; [reflexivity|].
      unfold knownStatus. cbn. split; [auto|]. split; [split|]; discriminate. }
    rewrite (contactForm_valid _ _ Hvalid).
    pose proof (contactFormPersist_cases body (contactFormEntered e)) as Hpersist.
    destruct (contactFormPersist body (contactFormEntered e))
      as [[error|[this submission]] e1].
    { rewrite handlerCatch_eq. eexists _, _. split; [reflexivity|].
      match goal with
      | |- knownStatus (status (@failureResponse ?D ?g ?d ?err)) /\ _ =>
          destruct (Hfail D g d err) as (H1 & H2 & H3)
      end.
      split; [exact H1|]. split; [exact H2|]. rewrite H3. discriminate. }
    destruct Hpersist as (Hstore & _). cbn [fst snd].
    destruct (contactFormNotify_cases this submission e1) as (Hresp & _ & Hsame & _).
    destruct (contactFormNotify this submission e1) as [[error|response] e2];
      cbn [fst snd] in *.
    { destruct Hresp; discriminate. }
    exists response, e2. split; [reflexivity|].
    destruct Hresp as [[= ->]|[= ->]]; unfold knownStatus; cbn.
    + split; [auto|]. split; [split|]; discriminate.
    + split; [auto|]. split; [split; reflexivity|].
      intros _. exists submission. split; [reflexivity|].
      rewrite Hsame, Hstore. apply in_or_app. right. left. reflexivity.
  - destruct request as [error|body].
    { rewrite waitlist_unparsed. eexists _, _. split; [reflexivity|].
      match goal with
      | |- knownStatus (status (@failureResponse ?D ?g ?d ?err)) /\ _ =>
          destruct (Hfail D g d err) as (H1 & H2 & H3)
      end.
      split; [exact H1|]. split; [exact H2|]. rewrite H3. discriminate. }
    destruct (validateWaitlistSubmission body) as [msg|] eqn:Hvalid.
    { rewrite (waitlist_invalid _ _ _ Hvalid). eexists _, _. split; [reflexivity|].
      unfold knownStatus. cbn. split; [auto|]. split; [split|]; discriminate. }
    rewrite (waitlist_valid _ _ Hvalid).
    destruct (waitlistLookup body (waitlistEntered e))
      as [[error|[this [existing|]]] e1] eqn:Hlookup.
    { rewrite handlerCatch_eq. eexists _, _. split; [reflexivity|].
      match goal with
      | |- knownStatus (status (@failureResponse ?D ?g ?d ?err)) /\ _ =>
          destruct (Hfail D g d err) as (H1 & H2 & H3)
      end.
      split; [exact H1|]. split; [exact H2|]. rewrite H3. discriminate. }
    { apply waitlistLookup_found in Hlookup as (Hin & _ & Hsame).
      eexists _, _. split; [reflexivity|]. unfold knownStatus. cbn.
      split; [auto|]. split; [split; reflexivity|].
      intros _. exists existing. split; [reflexivity|]. split; [exact Hin|exact Hsame]. }
    destruct (waitlistPersist body e1) as [[error|submission] e2].
    { rewrite handlerCatch_eq. eexists _, _. split; [reflexivity|].
      match goal with
      | |- knownStatus (status (@failureResponse ?D ?g ?d ?err)) /\ _ =>
          destruct (Hfail D g d err) as (H1 & H2 & H3)
      end.
      split; [exact H1|]. split; [exact H2|]. rewrite H3. discriminate. }
    rewrite waitlistNotify_eq. eexists _, _. split; [reflexivity|].
    unfold knownStatus. cbn. split; [auto|]. split; [split|]; discriminate.
Qed.

Lemma handlers_always_respond_witness :
  exists response e',
    contactForm (inr contactBody) (sampleEnv storeRejects) = (inr response, e')
    /\ knownStatus (status response).
Proof.
  destruct (handlers_always_respond (inr contactBody) (sampleEnv storeRejects))
    as [(response & e' & Hrun & Hstatus & _) _].
  - split; [exact I|vm_compute; reflexivity].
  - exists response, e'. split; [exact Hrun|exact Hstatus].
Defined.
